(** * Monthly resampling of daily stock data and its technical indicators

    A shallow embedding of [technical_indicators.py],
    [monthly_aggregator.py], [data_loader.py], [file_writer.py] and the
    [main] of [process_stock_data.py].

    Conventions of the embedding.
    - A float64 cell is an [option Q]: [None] is NaN (a missing value), and
      [Some q] is a number.  Arithmetic on numbers is exact: rounding is
      not modelled, so the averages are the values of their formulas, which
      the program computes up to rounding.
    - A volume is an [int64]: its sums wrap around modulo [2^64].
    - A [pd.Series] is the list of its cells in positional ([iloc]) order.
    - A Python exception is a value of [exn]; a computation that may raise
      returns a [result].
    - The pandas operations the code calls ([rolling(...).mean()],
      [groupby(...).resample('ME').agg(...)], [dropna], [sort_index],
      [copy]) are embedded by what they compute on these values. *)

From Stdlib Require Import String.
From Stdlib Require OrderedTypeEx.
From Stdlib Require Import List ZArith QArith Qminmax Lia Lqa Bool Permutation Sorted.
Import ListNotations.

Set Implicit Arguments.

(** ** Exceptions and results *)

Inductive exn : Type :=
| ValueError
| ZeroDivisionError
| IndexError
| KeyError.

Inductive result (A : Type) : Type :=
| Ok (a : A)
| Raise (e : exn).

Arguments Ok {A} a.
Arguments Raise {A} e.

Definition bind {A B : Type} (m : result A) (k : A -> result B) : result B :=
  match m with
  | Ok a => k a
  | Raise e => Raise e
  end.

Declare Scope result_scope.
Delimit Scope result_scope with result.
Notation "x <- m ;; k" := (bind m (fun x => k))
  (at level 61, m at next level, right associativity) : result_scope.
Notation "m ;;; k" := (bind m (fun _ => k))
  (at level 61, right associativity) : result_scope.
Open Scope result_scope.

(** ** Cells and series *)

Abbreviation cell := (option Q) (only parsing).
Abbreviation Series := (list (option Q)) (only parsing).

Definition fadd (a b : cell) : cell :=
  match a, b with
  | Some x, Some y => Some (Qplus x y)
  | _, _ => None
  end.

Definition fsub (a b : cell) : cell :=
  match a, b with
  | Some x, Some y => Some (Qminus x y)
  | _, _ => None
  end.

Definition fmul (a b : cell) : cell :=
  match a, b with
  | Some x, Some y => Some (Qmult x y)
  | _, _ => None
  end.

(** Python's [a / b] on floats raises [ZeroDivisionError] on a zero divisor. *)
Definition py_fdiv (a b : Q) : result Q :=
  if Qeq_bool b 0 then Raise ZeroDivisionError else Ok (Qdiv a b).

(** The non-missing values of a list of cells, in order. *)
Fixpoint dropna_cells {A : Type} (l : list (option A)) : list A :=
  match l with
  | [] => []
  | Some q :: t => q :: dropna_cells t
  | None :: t => dropna_cells t
  end.

Definition Qsum (xs : list Q) : Q := fold_left Qplus xs 0%Q.

(** Arithmetic mean of a list of numbers. *)
Definition mean (xs : list Q) : Q :=
  Qdiv (Qsum xs) (inject_Z (Z.of_nat (length xs))).

(** [l[s:e]] *)
Definition slice {A : Type} (l : list A) (s e : nat) : list A :=
  firstn (e - s) (skipn s l).

(** Positional read [s.iloc[i]] for [0 <= i]. *)
Definition iloc {A : Type} (l : list A) (i : nat) : result A :=
  match nth_error l i with
  | Some x => Ok x
  | None => Raise IndexError
  end.

Fixpoint upd {A : Type} (l : list A) (i : nat) (x : A) : list A :=
  match l, i with
  | [], _ => []
  | _ :: t, O => x :: t
  | h :: t, S j => h :: upd t j x
  end.

(** Positional write [s.iloc[i] = x]. *)
Definition iloc_set {A : Type} (l : list A) (i : nat) (x : A) : result (list A) :=
  if (i <? length l)%nat then Ok (upd l i x) else Raise IndexError.

(** ** [series.rolling(window=window, min_periods=min_periods).mean()] *)

(** The argument checks made when the rolling object is built. *)
Definition rolling_validate (window min_periods : Z) : result unit :=
  if (min_periods <? 0)%Z then Raise ValueError
  else if (window <? min_periods)%Z then Raise ValueError
  else if (window <? 0)%Z then Raise ValueError
  else Ok tt.

(** Fixed-window bounds: the window of position [i] is [start, i+1) with
    [start = max 0 (i + 1 - window)]. *)
Definition window_start (window : Z) (i : nat) : nat :=
  Z.to_nat (Z.max 0 (Z.of_nat i + 1 - window)).

(** Mean of the non-missing observations of a window; NaN when there are
    fewer than [min_periods] of them, or none. *)
Definition window_mean (min_periods : Z) (w : list cell) : cell :=
  let obs := dropna_cells w in
  if ((Z.of_nat (length obs) <? min_periods)%Z || (length obs =? 0)%nat)%bool
  then None
  else Some (mean obs).

Definition rolling_mean (series : Series) (window min_periods : Z) : result Series :=
  rolling_validate window min_periods ;;;
  Ok (map (fun i => window_mean min_periods (slice series (window_start window i) (S i)))
          (seq 0 (length series))).

(** ** technical_indicators.py *)

Definition calculate_sma (series : Series) (window : Z) : result Series :=
  rolling_mean series window 1.

(** [for i in idxs: s = body s i], stopping at the first exception. *)
Fixpoint for_each {S : Type} (body : S -> nat -> result S) (idxs : list nat) (s : S)
  : result S :=
  match idxs with
  | [] => Ok s
  | i :: rest => s' <- body s i ;; for_each body rest s'
  end.

(** One iteration of the loop of [calculate_ema]; [ema] is the series being
    filled in.  The last branch is taken with [i > window - 1] only, and
    the loop is reached with [window >= 1] only, so [i - 1] is the
    position before [i]. *)
Definition ema_step (series sma_initial : Series) (window : Z) (alpha : Q)
    (ema : Series) (i : nat) : result Series :=
  if (Z.of_nat i <? window - 1)%Z then
    x <- iloc series i ;;
    iloc_set ema i x
  else if (Z.of_nat i =? window - 1)%Z then
    x <- iloc sma_initial i ;;
    iloc_set ema i x
  else
    prev_ema <- iloc ema (i - 1) ;;
    current_price <- iloc series i ;;
    iloc_set ema i (fadd (fmul (fsub current_price prev_ema) (Some alpha)) prev_ema).

Definition calculate_ema (series : Series) (window : Z) : result Series :=
  alpha <- py_fdiv 2 (inject_Z window + 1) ;;
  let ema := repeat (@None Q) (length series) in
  sma_initial <- rolling_mean series window 1 ;;
  for_each (ema_step series sma_initial window alpha) (seq 0 (length series)) ema.

(** The trailing [k] values of [l] (all of [l] when it is shorter). *)
Definition trailing {A : Type} (k : nat) (l : list A) : list A :=
  skipn (length l - k) l.

(** The value the loop of [calculate_ema] stores at position [i], read off
    the finished series [out]. *)
Definition ema_value (series sma_initial : Series) (window : Z) (alpha : Q)
    (out : Series) (i : nat) : cell :=
  if (Z.of_nat i <? window - 1)%Z then nth i series None
  else if (Z.of_nat i =? window - 1)%Z then nth i sma_initial None
  else fadd (fmul (fsub (nth i series None) (nth (i - 1) out None)) (Some alpha))
            (nth (i - 1) out None).

(** ** Dates

    A timestamp is kept as its month, counted from January of year 0, and
    its day of the month; [year] and [month] are read off the month count. *)

Record Date : Type := { ym : Z; day : Z }.

Definition mkdate (y m d : Z) : Date := {| ym := y * 12 + (m - 1); day := d |}.

Definition year (d : Date) : Z := ym d / 12.
Definition month (d : Date) : Z := ym d mod 12 + 1.

Definition date_leb (a b : Date) : bool :=
  (ym a <? ym b)%Z || ((ym a =? ym b)%Z && (day a <=? day b)%Z).

Definition date_ltb (a b : Date) : bool :=
  (ym a <? ym b)%Z || ((ym a =? ym b)%Z && (day a <? day b)%Z).

Definition is_leap (y : Z) : bool :=
  (y mod 4 =? 0)%Z && (negb (y mod 100 =? 0)%Z || (y mod 400 =? 0)%Z).

Definition days_in_month (y m : Z) : Z :=
  if (m =? 2)%Z then (if is_leap y then 29 else 28)
  else if ((m =? 4) || (m =? 6) || (m =? 9) || (m =? 11))%Z then 30
  else 31.

(** The label of the ['ME'] bin of month [k]: the last calendar day of the
    month. *)
Definition month_end (k : Z) : Date :=
  {| ym := k; day := days_in_month (k / 12) (k mod 12 + 1) |}.

(** ** Data frames

    A frame is the list of its rows in positional order.  The index
    ([date]) and the columns of the frames of this program are the fields
    of a row; a column that the frame does not have is [None] in every
    row, and a column it has holds a cell. *)

Record Row : Type := {
  date : Date;
  ticker : string;
  open : option Q;
  high : option Q;
  low : option Q;
  close : option Q;
  adjclose : option Q;
  volume : option Z;
  SMA_10 : option (option Q);
  SMA_20 : option (option Q);
  EMA_10 : option (option Q);
  EMA_20 : option (option Q)
}.

Abbreviation Frame := (list Row) (only parsing).

(** A daily record as the loader hands it over: every field is present. *)
Record DailyRecord : Type := {
  d_date : Date;
  d_ticker : string;
  d_open : Q;
  d_high : Q;
  d_low : Q;
  d_close : Q;
  d_adjclose : Q;
  d_volume : Z
}.

Definition to_row (d : DailyRecord) : Row :=
  {| date := d_date d; ticker := d_ticker d;
     open := Some (d_open d); high := Some (d_high d); low := Some (d_low d);
     close := Some (d_close d); adjclose := Some (d_adjclose d);
     volume := Some (d_volume d);
     SMA_10 := None; SMA_20 := None; EMA_10 := None; EMA_20 := None |}.

(** Stable sort of the rows by their index: a row is put in front of the
    first row whose date is not earlier.  ([sort_index] is called with the
    default sort kind, which fixes no order between rows of equal date; the
    grouper of [resample] sorts stably.) *)
Fixpoint insert_row (r : Row) (l : list Row) : list Row :=
  match l with
  | [] => [r]
  | h :: t => if date_leb (date r) (date h) then r :: h :: t
              else h :: insert_row r t
  end.

Definition sort_index (df : Frame) : Frame := fold_right insert_row [] df.

(** ** Aggregations of a bin *)

(** ['first']: the first non-missing cell. *)
Fixpoint agg_first {A : Type} (l : list (option A)) : option A :=
  match l with
  | [] => None
  | Some x :: _ => Some x
  | None :: t => agg_first t
  end.

(** ['last']: the last non-missing cell. *)
Definition agg_last {A : Type} (l : list (option A)) : option A :=
  agg_first (rev l).

Definition qmax (a b : Q) : Q := if Qle_bool a b then b else a.
Definition qmin (a b : Q) : Q := if Qle_bool a b then a else b.

(** ['max'] and ['min'] over the non-missing cells; missing when there is
    none. *)
Definition agg_max (l : list (option Q)) : option Q :=
  match dropna_cells l with
  | [] => None
  | x :: xs => Some (fold_left qmax xs x)
  end.

Definition agg_min (l : list (option Q)) : option Q :=
  match dropna_cells l with
  | [] => None
  | x :: xs => Some (fold_left qmin xs x)
  end.

(** The volumes are an [int64] column, and so is its ['sum']: an integer
    is kept as the representative of its class modulo [2^64] between
    [-2^63] and [2^63 - 1], and an addition that leaves this range wraps
    around. *)
Definition int64 (z : Z) : Z := ((z + 2 ^ 63) mod 2 ^ 64 - 2 ^ 63)%Z.

Definition add64 (a b : Z) : Z := int64 (a + b).

(** ['sum'] over the non-missing cells, added up one after the other in
    [int64]; [0] when there is none. *)
Definition agg_sum (l : list (option Z)) : option Z :=
  Some (fold_left add64 (dropna_cells l) 0%Z).

(** ** monthly_aggregator.py *)

(** The row of one (ticker, month) bin. *)
Definition agg_bin (t : string) (k : Z) (bin : list Row) : Row :=
  {| date := month_end k; ticker := t;
     open := agg_first (map open bin);
     high := agg_max (map high bin);
     low := agg_min (map low bin);
     close := agg_last (map close bin);
     adjclose := agg_last (map adjclose bin);
     volume := agg_sum (map volume bin);
     SMA_10 := None; SMA_20 := None; EMA_10 := None; EMA_20 := None |}.

(** The months [a], [a+1], ..., [b]. *)
Definition month_range (a b : Z) : list Z :=
  map (fun i => (a + Z.of_nat i)%Z) (seq 0 (Z.to_nat (b - a + 1))).

(** [.resample('ME').agg(...)] on the rows [g] of ticker [t]: the rows are
    put in date order, and there is one bin for every month from that of
    the earliest row to that of the latest one, with or without rows. *)
Definition resample_ME_agg (t : string) (g : list Row) : list Row :=
  match sort_index g with
  | [] => []
  | first :: rest =>
      let s := first :: rest in
      map (fun k => agg_bin t k (filter (fun r => (ym (date r) =? k)%Z) s))
          (month_range (ym (date first)) (ym (date (last s first))))
  end.

Fixpoint insert_key (t : string) (l : list string) : list string :=
  match l with
  | [] => [t]
  | h :: rest => if String.leb t h then t :: h :: rest
                 else h :: insert_key t rest
  end.

(** The keys of [groupby('ticker')]: the distinct tickers, sorted. *)
Definition group_keys (df : Frame) : list string :=
  fold_right insert_key [] (nodup string_dec (map ticker df)).

(** The frame before [dropna]: the bins of every ticker, ticker by ticker. *)
Definition monthly_candidates (df : Frame) : Frame :=
  flat_map (fun t => resample_ME_agg t (filter (fun r => String.eqb (ticker r) t) df))
           (group_keys df).

Definition has_ohlc (r : Row) : bool :=
  match open r, high r, low r, close r with
  | Some _, Some _, Some _, Some _ => true
  | _, _, _, _ => false
  end.

(** [dropna(subset=['open', 'high', 'low', 'close'])] *)
Definition dropna_ohlc (df : Frame) : Frame := filter has_ohlc df.

(** [reset_index()] and [set_index('date')] keep the rows and their order:
    ticker and date are fields of a row here. *)
Definition aggregate_monthly_ohlc (df : Frame) : Frame :=
  let monthly_data := monthly_candidates df in
  dropna_ohlc monthly_data.

(** ** The object store

    A frame is a mutable object.  A variable of the program holds a
    reference, an address of the store; [df.copy()] and [df.sort_index()]
    make a new object, [df[col] = values] changes the object in place. *)

Abbreviation Store := (list (list Row)) (only parsing).

Definition M (A : Type) : Type := list (list Row) -> result (A * list (list Row)).

Definition ret {A : Type} (a : A) : M A := fun st => Ok (a, st).

Definition bindM {A B : Type} (m : M A) (k : A -> M B) : M B :=
  fun st => match m st with
            | Ok (a, st') => k a st'
            | Raise e => Raise e
            end.

Declare Scope store_scope.
Delimit Scope store_scope with store.
Notation "x <~ m ;; k" := (bindM m (fun x => k))
  (at level 61, m at next level, right associativity) : store_scope.
Notation "m ;;~ k" := (bindM m (fun _ => k))
  (at level 61, right associativity) : store_scope.

Definition lift {A : Type} (r : result A) : M A :=
  fun st => match r with
            | Ok a => Ok (a, st)
            | Raise e => Raise e
            end.

Definition load (r : nat) : M (list Row) :=
  fun st => match nth_error st r with
            | Some f => Ok (f, st)
            | None => Raise KeyError
            end.

Definition alloc (f : list Row) : M nat :=
  fun st => Ok (length st, st ++ [f]).

Definition store (r : nat) (f : list Row) : M unit :=
  fun st => if (r <? length st)%nat then Ok (tt, upd st r f) else Raise KeyError.

Definition df_copy (df : nat) : M nat :=
  (f <~ load df ;; alloc f)%store.

Definition df_sort_index (df : nat) : M nat :=
  (f <~ load df ;; alloc (sort_index f))%store.

(** [df['close']] *)
Definition df_getitem_close (df : nat) : M (list (option Q)) :=
  (f <~ load df ;; ret (map close f))%store.

Definition zip_rows (setter : Row -> option Q -> Row) (f : list Row)
    (values : list (option Q)) : list Row :=
  map (fun p => setter (fst p) (snd p)) (combine f values).

(** [df[col] = values], for a series over the index of [df]. *)
Definition df_setitem (setter : Row -> option Q -> Row) (df : nat)
    (values : list (option Q)) : M unit :=
  (f <~ load df ;;
   if (length values =? length f)%nat then store df (zip_rows setter f values)
   else lift (Raise ValueError))%store.

Definition set_SMA_10 (r : Row) (v : option Q) : Row :=
  {| date := date r; ticker := ticker r; open := open r; high := high r;
     low := low r; close := close r; adjclose := adjclose r; volume := volume r;
     SMA_10 := Some v; SMA_20 := SMA_20 r; EMA_10 := EMA_10 r; EMA_20 := EMA_20 r |}.

Definition set_SMA_20 (r : Row) (v : option Q) : Row :=
  {| date := date r; ticker := ticker r; open := open r; high := high r;
     low := low r; close := close r; adjclose := adjclose r; volume := volume r;
     SMA_10 := SMA_10 r; SMA_20 := Some v; EMA_10 := EMA_10 r; EMA_20 := EMA_20 r |}.

Definition set_EMA_10 (r : Row) (v : option Q) : Row :=
  {| date := date r; ticker := ticker r; open := open r; high := high r;
     low := low r; close := close r; adjclose := adjclose r; volume := volume r;
     SMA_10 := SMA_10 r; SMA_20 := SMA_20 r; EMA_10 := Some v; EMA_20 := EMA_20 r |}.

Definition set_EMA_20 (r : Row) (v : option Q) : Row :=
  {| date := date r; ticker := ticker r; open := open r; high := high r;
     low := low r; close := close r; adjclose := adjclose r; volume := volume r;
     SMA_10 := SMA_10 r; SMA_20 := SMA_20 r; EMA_10 := EMA_10 r; EMA_20 := Some v |}.

Definition add_technical_indicators (df : nat) : M nat :=
  (df <~ df_copy df ;;
   df <~ df_sort_index df ;;
   c <~ df_getitem_close df ;;
   v <~ lift (calculate_sma c 10) ;;
   df_setitem set_SMA_10 df v ;;~
   c <~ df_getitem_close df ;;
   v <~ lift (calculate_sma c 20) ;;
   df_setitem set_SMA_20 df v ;;~
   c <~ df_getitem_close df ;;
   v <~ lift (calculate_ema c 10) ;;
   df_setitem set_EMA_10 df v ;;~
   c <~ df_getitem_close df ;;
   v <~ lift (calculate_ema c 20) ;;
   df_setitem set_EMA_20 df v ;;~
   ret df)%store.

(** ** Notions used by the statements *)

(** The daily records of ticker [t] in month [k], in input order. *)
Definition month_group (S0 : list DailyRecord) (t : string) (k : Z) : list DailyRecord :=
  filter (fun d => String.eqb (d_ticker d) t && (ym (d_date d) =? k)%Z) S0.

(** Within every ticker the rows are in date order. *)
Fixpoint sorted_within_instrument (df : list Row) : bool :=
  match df with
  | [] => true
  | r :: rest =>
      forallb (fun r' => negb (String.eqb (ticker r') (ticker r))
                         || date_leb (date r) (date r')) rest
      && sorted_within_instrument rest
  end.

(** The whole frame is in date order. *)
Definition date_le (a b : Row) : Prop := date_leb (date a) (date b) = true.
Definition date_lt (a b : Row) : Prop := date_ltb (date a) (date b) = true.

(** The frame with the four indicator columns set from the given series. *)
Definition with_indicators (f : list Row) (s10 s20 e10 e20 : list (option Q)) : list Row :=
  zip_rows set_EMA_20
    (zip_rows set_EMA_10 (zip_rows set_SMA_20 (zip_rows set_SMA_10 f s10) s20) e10) e20.

(** Rows of one instrument are contiguous: between two rows of an
    instrument there are only rows of that instrument. *)
Definition grouped_by_instrument (df : list Row) : Prop :=
  forall i j k a c b, (i <= j <= k)%nat ->
    nth_error df i = Some a -> nth_error df j = Some c -> nth_error df k = Some b ->
    ticker a = ticker b -> ticker c = ticker a.

(** Of two rows of one instrument the later one has the later date. *)
Definition ascending_within_instrument (df : list Row) : Prop :=
  forall i j a b, (i < j)%nat ->
    nth_error df i = Some a -> nth_error df j = Some b ->
    ticker a = ticker b -> date_lt a b.

(** ** Sample data *)

Definition daily (t : string) (y m d : Z) (o h l c v : Z) : DailyRecord :=
  {| d_date := mkdate y m d; d_ticker := t;
     d_open := inject_Z o; d_high := inject_Z h; d_low := inject_Z l;
     d_close := inject_Z c; d_adjclose := inject_Z c; d_volume := v |}.

(** Ten trading days of January 2022 for one instrument. *)
Definition january_records : list DailyRecord :=
  map (fun i => let z := Z.of_nat i in
                daily "TEST" 2022 1 (3 + z) (100 + z) (105 + z) (95 + z) (102 + z) 1000000)
      (seq 0 10).

Definition january_row : Row :=
  {| date := mkdate 2022 1 31; ticker := "TEST";
     open := Some (inject_Z 100); high := Some (inject_Z 114);
     low := Some (inject_Z 95); close := Some (inject_Z 111);
     adjclose := Some (inject_Z 111); volume := Some 10000000%Z;
     SMA_10 := None; SMA_20 := None; EMA_10 := None; EMA_20 := None |}.

(** An instrument with records in January and in March, none in February. *)
Definition gap_records : list DailyRecord :=
  [daily "GAP" 2022 1 3 100 105 95 102 1000;
   daily "GAP" 2022 1 4 101 106 96 103 1000;
   daily "GAP" 2022 3 1 110 115 105 112 1000].

(** The candidate row of February. *)
Definition february_row : Row :=
  {| date := mkdate 2022 2 28; ticker := "GAP";
     open := None; high := None; low := None; close := None;
     adjclose := None; volume := Some 0%Z;
     SMA_10 := None; SMA_20 := None; EMA_10 := None; EMA_20 := None |}.



(** Three monthly rows of one instrument, and the same rows out of order. *)
Definition monthly (t : string) (k : Z) (c : Z) : Row :=
  {| date := month_end k; ticker := t;
     open := Some (inject_Z c); high := Some (inject_Z (c + 5));
     low := Some (inject_Z (c - 5)); close := Some (inject_Z c);
     adjclose := Some (inject_Z c); volume := Some 1000%Z;
     SMA_10 := None; SMA_20 := None; EMA_10 := None; EMA_20 := None |}.

Definition monthly_sample : list Row :=
  [monthly "TEST" 24264 100; monthly "TEST" 24265 110; monthly "TEST" 24266 105].

Definition monthly_shuffled : list Row :=
  [monthly "TEST" 24265 110; monthly "TEST" 24264 100; monthly "TEST" 24266 105].

(** ** monthly_aggregator.py, continued *)

(** [monthly_df[monthly_df['ticker'] == ticker]]: a new frame, the rows of
    the ticker in their order. *)
Definition df_getitem_ticker_eq (df : nat) (t : string) : M nat :=
  (f <~ load df ;; alloc (filter (fun r => String.eqb (ticker r) t) f))%store.

Definition get_monthly_data_by_ticker (monthly_df : nat) (ticker : string) : M nat :=
  (ticker_data <~ df_getitem_ticker_eq monthly_df ticker ;;
   ticker_data <~ df_copy ticker_data ;;
   ticker_data <~ df_sort_index ticker_data ;;
   ret ticker_data)%store.

(** ** data_loader.py *)

(** [Series.unique()]: the distinct values, in order of first appearance. *)
Fixpoint unique_from (seen : list string) (l : list string) : list string :=
  match l with
  | [] => []
  | x :: rest =>
      if existsb (String.eqb x) seen then unique_from seen rest
      else x :: unique_from (x :: seen) rest
  end.

Definition unique (l : list string) : list string := unique_from [] l.

Definition validate_tickers (df : Frame) (expected_tickers : list string) : result bool :=
  let unique_tickers := unique (map ticker df) in
  let missing_tickers :=
    filter (fun ticker => negb (existsb (String.eqb ticker) unique_tickers))
           expected_tickers in
  match missing_tickers with
  | [] => Ok true
  | _ :: _ => Raise ValueError
  end.

(** A frame together with its labels: the name of its index, if it has
    one, and the names of its columns, in order.  The cells are those of
    the rows. *)
Record Table : Type := {
  index_name : option string;
  columns : list string;
  rows : list Row
}.

(** The exceptions of the loader: that of a missing file, and those of
    the frame operations. *)
Inductive load_exn : Type :=
| FileNotFoundError
| FrameError (e : exn).

Inductive loaded : Type :=
| Loaded (df : Table)
| LoadFailed (e : load_exn).

Definition required_columns : list string :=
  ["date"; "volume"; "open"; "high"; "low"; "close"; "adjclose"; "ticker"]%string.

(** The order of [sort_values(['ticker', 'date'])]: by ticker, and by date
    within a ticker. *)
Definition row_leb (a b : Row) : bool :=
  match String.compare (ticker a) (ticker b) with
  | Lt => true
  | Eq => date_leb (date a) (date b)
  | Gt => false
  end.

Fixpoint insert_by_ticker_date (r : Row) (l : list Row) : list Row :=
  match l with
  | [] => [r]
  | h :: t => if row_leb r h then r :: h :: t
              else h :: insert_by_ticker_date r t
  end.

(** [df.sort_values(['ticker', 'date'])]: a stable sort on the two keys. *)
Definition sort_values_ticker_date (df : list Row) : list Row :=
  fold_right insert_by_ticker_date [] df.

Definition has_column (df : Table) (col : string) : bool :=
  existsb (String.eqb col) (columns df).

(** A row of the frame [pd.read_csv(file_path, parse_dates=['date'])]
    returns: a row whose date cell is a date, or a row whose date cell is
    text that does not denote a date.  The reader leaves such text in
    place, and [pd.to_datetime] raises on it; the other cells of such a
    row are never read.  (A row with an empty date cell, whose date would
    be [NaT], is not a [Row] and is left out of the embedding.) *)
Inductive csv_row : Type :=
| Dated (r : Row)
| Undated (date_text : string).

(** The frame read: the names of its columns, in order, and its rows.
    It has no named index. *)
Record CsvTable : Type := {
  csv_header : list string;
  csv_rows : list csv_row
}.

(** [pd.to_datetime] on the date column: every cell becomes a date, or
    the call raises [ValueError] on a cell that does not denote one. *)
Fixpoint to_datetime (l : list csv_row) : result (list Row) :=
  match l with
  | [] => Ok []
  | Undated _ :: _ => Raise ValueError
  | Dated r :: rest => rs <- to_datetime rest ;; Ok (r :: rs)
  end.

Section Loader.

(** What the file system and the CSV reader answer is not part of the
    program: [path_exists] is [Path(file_path).exists()], and [read_csv]
    is [pd.read_csv(file_path, parse_dates=['date'])], which returns a
    frame or raises (as it does itself for a file without a date
    column). *)
Variable path_exists : string -> bool.
Variable read_csv : string -> result CsvTable.

Definition load_stock_data (file_path : string) : loaded :=
  if negb (path_exists file_path) then LoadFailed FileNotFoundError
  else
    match read_csv file_path with
    | Raise e => LoadFailed (FrameError e)
    | Ok raw =>
        (* df['date'] = pd.to_datetime(df['date']) *)
        if negb (existsb (String.eqb "date") (csv_header raw))
        then LoadFailed (FrameError KeyError)
        else
          match to_datetime (csv_rows raw) with
          | Raise e => LoadFailed (FrameError e)
          | Ok dated =>
              let df := {| index_name := None; columns := csv_header raw;
                           rows := dated |} in
              let missing_columns :=
                filter (fun col => negb (has_column df col)) required_columns in
              match missing_columns with
              | _ :: _ => LoadFailed (FrameError ValueError)
              | [] =>
                  (* pd.to_datetime once more, on dates; then
                     sort_values(['ticker', 'date']).reset_index(drop=True)
                     and set_index('date') *)
                  Loaded {| index_name := Some "date"%string;
                            columns := filter (fun col => negb (String.eqb col "date"))
                                              (columns df);
                            rows := sort_values_ticker_date (rows df) |}
              end
          end
    end.

End Loader.

(** ** file_writer.py *)

(** What the program does to the file system, in order: the directories
    it makes ([mkdir(parents=True, exist_ok=True)]) and the frames it
    writes ([to_csv(file_path, index=False)]), with their columns.  Both
    are taken to succeed. *)
Inductive fs_event : Type :=
| Mkdir (path : string)
| ToCsv (path : string) (cols : list string) (content : list Row).

(** A command that acts on the file system returns or raises, and in both
    cases leaves the events it has made. *)
Definition IO (A : Type) : Type := list fs_event -> result A * list fs_event.

Definition io_ret {A : Type} (a : A) : IO A := fun w => (Ok a, w).

Definition io_raise {A : Type} (e : exn) : IO A := fun w => (Raise e, w).

Definition io_bind {A B : Type} (m : IO A) (k : A -> IO B) : IO B :=
  fun w => match m w with
           | (Ok a, w') => k a w'
           | (Raise e, w') => (Raise e, w')
           end.

Definition emit (e : fs_event) : IO unit := fun w => (Ok tt, w ++ [e]).

Declare Scope io_scope.
Delimit Scope io_scope with io.
Notation "x <- m ;; k" := (io_bind m (fun x => k))
  (at level 61, m at next level, right associativity) : io_scope.
Notation "m ;;; k" := (io_bind m (fun _ => k))
  (at level 61, right associativity) : io_scope.

Definition output_columns : list string :=
  ["date"; "open"; "high"; "low"; "close"; "adjclose"; "volume";
   "SMA_10"; "SMA_20"; "EMA_10"; "EMA_20"]%string.

(** [df.reset_index()]: the index becomes the first column, under its
    name, or, when it has none, under "index" (under "level_0" when there
    is a column "index"); a column of that name must not exist already. *)
Definition reset_index (df : Table) : result Table :=
  let name := match index_name df with
              | Some n => n
              | None => if has_column df "index" then "level_0"%string
                        else "index"%string
              end in
  if has_column df name then Raise ValueError
  else Ok {| index_name := None; columns := name :: columns df; rows := rows df |}.

Section Writer.

(** [str(Path(output_dir) / filename)] *)
Variable path_join : string -> string -> string.

Definition write_ticker_to_csv (df : Table) (ticker : string) (output_dir : string)
  : IO string :=
  (emit (Mkdir output_dir) ;;;
   match reset_index df with
   | Raise e => io_raise e
   | Ok df_output =>
       let available_columns :=
         filter (fun col => has_column df_output col) output_columns in
       let filename := ("result_" ++ ticker ++ ".csv")%string in
       let file_path := path_join output_dir filename in
       emit (ToCsv file_path available_columns (rows df_output)) ;;;
       io_ret file_path
   end)%io.

(** The loop of [partition_and_write_results]; [created_files] is the list
    built so far.  What is printed is left out. *)
Fixpoint partition_loop (monthly_df : Table) (tickers : list string) (output_dir : string)
    (created_files : list string) : IO (list string) :=
  match tickers with
  | [] => io_ret created_files
  | ticker0 :: rest =>
      if negb (has_column monthly_df "ticker") then io_raise KeyError
      else
        let ticker_data :=
          {| index_name := index_name monthly_df;
             columns := columns monthly_df;
             rows := filter (fun r => String.eqb (ticker r) ticker0) (rows monthly_df) |} in
        match rows ticker_data with
        | [] => partition_loop monthly_df rest output_dir created_files
        | _ :: _ =>
            (file_path <- write_ticker_to_csv ticker_data ticker0 output_dir ;;
             partition_loop monthly_df rest output_dir (created_files ++ [file_path]))%io
        end
  end.

Definition partition_and_write_results (monthly_df : Table) (tickers : list string)
    (output_dir : string) : IO (list string) :=
  partition_loop monthly_df tickers output_dir [].

End Writer.

(** ** process_stock_data.py *)

Definition EXPECTED_TICKERS : list string :=
  ["AAPL"; "AMD"; "AMZN"; "AVGO"; "CSCO"; "MSFT"; "NFLX"; "PEP"; "TMUS"; "TSLA"]%string.

(** How a run of [main] ends: it returns, or [sys.exit(code)] ends it. *)
Inductive outcome : Type :=
| Returned
| SysExit (code : Z).

(** [df.empty], for a frame that has columns. *)
Definition df_empty (df : nat) : M bool :=
  (f <~ load df ;;
   ret (match f with
        | [] => true
        | _ :: _ => false
        end))%store.

(** The loop of step 4; [monthly_with_indicators] is the list built so
    far. *)
Fixpoint indicators_loop (df_monthly : nat) (tickers : list string)
    (monthly_with_indicators : list nat) : M (list nat) :=
  match tickers with
  | [] => ret monthly_with_indicators
  | ticker0 :: rest =>
      (ticker_data <~ df_getitem_ticker_eq df_monthly ticker0 ;;
       ticker_data <~ df_copy ticker_data ;;
       empty <~ df_empty ticker_data ;;
       if empty then indicators_loop df_monthly rest monthly_with_indicators
       else
         ticker_data <~ add_technical_indicators ticker_data ;;
         indicators_loop df_monthly rest (monthly_with_indicators ++ [ticker_data]))%store
  end.

Fixpoint load_all (frames : list nat) : M (list (list Row)) :=
  match frames with
  | [] => ret []
  | df :: rest => (f <~ load df ;; fs <~ load_all rest ;; ret (f :: fs))%store
  end.

(** [pd.concat(frames, ignore_index=False)]: the rows of the frames, one
    frame after the other; of no frame there is no concatenation. *)
Definition pd_concat (frames : list nat) : M nat :=
  match frames with
  | [] => lift (Raise ValueError)
  | _ :: _ => (fs <~ load_all frames ;; alloc (concat fs))%store
  end.

Definition returns {A : Type} (r : result A) : bool :=
  match r with
  | Ok _ => true
  | Raise _ => false
  end.

(** The columns of the frame [aggregate_monthly_ohlc] returns, and those
    [add_technical_indicators] adds. *)
Definition monthly_columns : list string :=
  ["ticker"; "open"; "high"; "low"; "close"; "adjclose"; "volume"]%string.

Definition indicator_columns : list string :=
  ["SMA_10"; "SMA_20"; "EMA_10"; "EMA_20"]%string.

Section Main.

(** The file system and the readers, as for the loader and the writer;
    [read_back] is the [pd.read_csv(file_path)] of the summary. *)
Variable path_exists : string -> bool.
Variable read_csv : string -> result CsvTable.
Variable path_join : string -> string -> string.
Variable read_back : string -> result Table.

(** [main]: every step runs in a [try] whose handler ends the run with
    [sys.exit(1)].  What is printed is left out.  The monthly frame is the
    first object of the store of the frames made in step 4. *)
Definition main (input_file output_dir : string) (w : list fs_event)
  : outcome * list fs_event :=
  match load_stock_data path_exists read_csv input_file with
  | LoadFailed _ => (SysExit 1, w)
  | Loaded df_daily =>
  match validate_tickers (rows df_daily) EXPECTED_TICKERS with
  | Raise _ => (SysExit 1, w)
  | Ok _ =>
  let df_monthly := aggregate_monthly_ohlc (rows df_daily) in
  match (monthly_with_indicators <~ indicators_loop 0 EXPECTED_TICKERS [] ;;
         df_monthly_final <~ pd_concat monthly_with_indicators ;;
         load df_monthly_final)%store [df_monthly] with
  | Raise _ => (SysExit 1, w)
  | Ok (final_rows, _) =>
  let df_monthly_final :=
    {| index_name := Some "date"%string;
       columns := monthly_columns ++ indicator_columns;
       rows := final_rows |} in
  match partition_and_write_results path_join df_monthly_final EXPECTED_TICKERS
                                    output_dir w with
  | (Raise _, w') => (SysExit 1, w')
  | (Ok created_files, w') =>
      if forallb (fun file_path => returns (read_back file_path))
                 (fold_right insert_key [] created_files)
      then (Returned, w')
      else (SysExit 1, w')
  end
  end
  end
  end.

End Main.

(** The frame [add_technical_indicators] returns for a frame. *)
Definition annotated (f : list Row) : list Row :=
  let g := sort_index f in
  match calculate_sma (map close g) 10, calculate_sma (map close g) 20,
        calculate_ema (map close g) 10, calculate_ema (map close g) 20 with
  | Ok s10, Ok s20, Ok e10, Ok e20 => with_indicators g s10 s20 e10 e20
  | _, _, _, _ => []
  end.

(** Ten tickers with two trading days each, in two months. *)
Definition ten_tickers_records : list DailyRecord :=
  flat_map (fun t => [daily t 2022 1 3 100 105 95 102 1000;
                      daily t 2022 2 1 101 106 96 103 2000])
           EXPECTED_TICKERS.

(** ** Further notions used by the statements *)

(** The sum of the volumes of a frame, missing ones apart. *)
Definition total_volume (df : list Row) : Z :=
  fold_right Z.add 0%Z (dropna_cells (map volume df)).

(** The volume of a row, a missing one counting for nothing. *)
Definition row_volume (r : Row) : Z :=
  match volume r with
  | Some v => v
  | None => 0%Z
  end.

Definition row_le (a b : Row) : Prop := row_leb a b = true.

(** The fields of a row other than the four indicators. *)
Definition base_fields (r : Row) :=
  (date r, ticker r, open r, high r, low r, close r, adjclose r, volume r).

(** A monthly frame with its labels, and a join of paths for the samples. *)
Definition monthly_table : Table :=
  {| index_name := Some "date"%string;
     columns := ["ticker"; "open"; "high"; "low"; "close"; "adjclose"; "volume"]%string;
     rows := monthly_sample |}.

Definition slash_join (dir name : string) : string := (dir ++ "/" ++ name)%string.

(** The name of the file of a ticker. *)
Definition result_csv (ticker : string) : string := ("result_" ++ ticker ++ ".csv")%string.

(** The columns written for a frame indexed by date. *)
Definition csv_columns (df : Table) : list string :=
  filter (fun col => existsb (String.eqb col) ("date"%string :: columns df)) output_columns.

(** The ticker has a row in the frame. *)
Definition has_rows (df : list Row) (t : string) : bool :=
  existsb (fun r => String.eqb (ticker r) t) df.

(** The rows written to CSV files, in the order of the events. *)
Fixpoint written_rows (w : list fs_event) : list Row :=
  match w with
  | [] => []
  | Mkdir _ :: rest => written_rows rest
  | ToCsv _ _ content :: rest => content ++ written_rows rest
  end.

(** The paths of the CSV files written, in the order of the events. *)
Fixpoint written_paths (w : list fs_event) : list string :=
  match w with
  | [] => []
  | Mkdir _ :: rest => written_paths rest
  | ToCsv path _ _ :: rest => path :: written_paths rest
  end.

(** The CSV files written, each with its path and the rows it holds, in
    the order of the events. *)
Fixpoint written_files (w : list fs_event) : list (string * list Row) :=
  match w with
  | [] => []
  | Mkdir _ :: rest => written_files rest
  | ToCsv path _ content :: rest => (path, content) :: written_files rest
  end.

(** The row is of one of the expected tickers. *)
Definition in_expected (r : Row) : bool :=
  existsb (String.eqb (ticker r)) EXPECTED_TICKERS.

(** * Properties *)

(** ** Lists: positional reads and writes *)

Lemma iloc_lt (A : Type) (l : list A) (i : nat) (d : A) :
  (i < length l)%nat -> iloc l i = Ok (nth i l d).
Proof.
  intros H. unfold iloc. now rewrite (nth_error_nth' l d H).
Qed.

Lemma length_upd (A : Type) (l : list A) (i : nat) (x : A) :
  length (upd l i x) = length l.
Proof.
  revert i; induction l as [|h t IH]; intros [|i]; simpl; auto.
Qed.

Lemma nth_error_upd_same (A : Type) (l : list A) (i : nat) (x : A) :
  (i < length l)%nat -> nth_error (upd l i x) i = Some x.
Proof.
  revert i; induction l as [|h t IH]; intros [|i]; simpl; intros H;
    try lia; auto.
  apply IH. lia.
Qed.

Lemma nth_error_upd_other (A : Type) (l : list A) (i j : nat) (x : A) :
  i <> j -> nth_error (upd l i x) j = nth_error l j.
Proof.
  revert i j; induction l as [|h t IH]; intros [|i] [|j]; simpl; intros H;
    try congruence; auto.
Qed.

Lemma iloc_set_lt (A : Type) (l : list A) (i : nat) (x : A) :
  (i < length l)%nat -> iloc_set l i x = Ok (upd l i x).
Proof.
  intros H. unfold iloc_set.
  destruct (Nat.ltb_spec i (length l)); [reflexivity | lia].
Qed.

Lemma nth_error_map_seq (A : Type) (f : nat -> A) (n i : nat) :
  (i < n)%nat -> nth_error (map f (seq 0 n)) i = Some (f i).
Proof.
  intros H. rewrite nth_error_map, nth_error_seq.
  destruct (Nat.ltb_spec i n); [reflexivity | lia].
Qed.

Lemma nth_error_ext (A : Type) (l1 l2 : list A) :
  (forall i, nth_error l1 i = nth_error l2 i) -> l1 = l2.
Proof.
  revert l2; induction l1 as [|a l1 IH]; intros [|b l2] H; auto.
  - specialize (H 0%nat); discriminate.
  - specialize (H 0%nat); discriminate.
  - f_equal.
    + specialize (H 0%nat). simpl in H. congruence.
    + apply IH. intros i. apply (H (S i)).
Qed.

(** ** Windows *)

Lemma dropna_cells_Some (A : Type) (l : list A) : dropna_cells (map Some l) = l.
Proof.
  induction l as [|q l IH]; simpl; congruence.
Qed.

Lemma slice_map (A B : Type) (f : A -> B) (l : list A) (s e : nat) :
  slice (map f l) s e = map f (slice l s e).
Proof.
  unfold slice. now rewrite skipn_map, firstn_map.
Qed.

Lemma length_slice (A : Type) (l : list A) (s e : nat) :
  (e <= length l)%nat -> length (slice l s e) = (e - s)%nat.
Proof.
  intros H. unfold slice. rewrite length_firstn, length_skipn. lia.
Qed.

Lemma slice_trailing (A : Type) (l : list A) (s i : nat) :
  (i < length l)%nat -> (s <= i)%nat ->
  slice l s (S i) = trailing (S i - s) (firstn (S i) l).
Proof.
  intros Hi Hs. unfold slice, trailing.
  rewrite length_firstn, skipn_firstn_comm.
  replace (Nat.min (S i) (length l) - (S i - s))%nat with s by lia.
  reflexivity.
Qed.

Lemma window_start_min (W : Z) (i : nat) :
  (0 < W)%Z ->
  (S i - window_start W i)%nat = Nat.min (S i) (Z.to_nat W)
  /\ (window_start W i <= i)%nat.
Proof.
  intros HW. unfold window_start. lia.
Qed.

Lemma window_mean_Some (l : list Q) :
  l <> [] -> window_mean 1 (map Some l) = Some (mean l).
Proof.
  intros H. unfold window_mean. rewrite dropna_cells_Some.
  destruct l as [|q l]; [congruence|]. simpl length.
  destruct (Z.ltb_spec (Z.of_nat (S (length l))) 1); [lia | reflexivity].
Qed.

Lemma rolling_mean_Ok (series : Series) (W : Z) :
  (0 < W)%Z ->
  rolling_mean series W 1 =
  Ok (map (fun i => window_mean 1 (slice series (window_start W i) (S i)))
          (seq 0 (length series))).
Proof.
  intros HW. unfold rolling_mean, rolling_validate.
  destruct (Z.ltb_spec 1 0); [lia|].
  destruct (Z.ltb_spec W 1); [lia|].
  destruct (Z.ltb_spec W 0); [lia|]. reflexivity.
Qed.

Lemma rolling_mean_numbers (S0 : list Q) (W : Z) (i : nat) :
  (0 < W)%Z -> (i < length S0)%nat ->
  window_mean 1 (slice (map Some S0) (window_start W i) (S i))
  = Some (mean (slice S0 (window_start W i) (S i))).
Proof.
  intros HW Hi. rewrite slice_map. apply window_mean_Some.
  intros E. apply (f_equal (@length Q)) in E.
  rewrite length_slice in E by lia.
  destruct (window_start_min i HW) as [_ Hle]. cbn [length] in E. lia.
Qed.

(** C2. For a positive window [W] and a sequence of numbers [S0],
    [calculate_sma] returns a series of the length of [S0]; its value at
    every index [i] is a number, the arithmetic mean of the trailing
    [min (i+1) W] values of [S0] ending at [i]: the first [W-1] values are
    means over the [i+1 < W] points available, and from [i = W-1] on the
    value is the mean of [S0[i-W+1 .. i]]. *)
Theorem calculate_sma_growing_window (W : Z) (S0 : list Q) :
  (0 < W)%Z ->
  exists out,
    calculate_sma (map Some S0) W = Ok out /\
    length out = length S0 /\
    forall i, (i < length S0)%nat ->
      let k := Nat.min (i + 1) (Z.to_nat W) in
      nth_error out i = Some (Some (mean (trailing k (firstn (i + 1) S0)))) /\
      length (trailing k (firstn (i + 1) S0)) = k /\
      ((Z.of_nat i < W - 1)%Z ->
         (k < Z.to_nat W)%nat /\ trailing k (firstn (i + 1) S0) = firstn (i + 1) S0) /\
      ((W - 1 <= Z.of_nat i)%Z ->
         nth_error out i
         = Some (Some (mean (slice S0 (i + 1 - Z.to_nat W) (i + 1))))).
Proof.
  intros HW. unfold calculate_sma. rewrite (rolling_mean_Ok _ HW).
  eexists; split; [reflexivity|]. split.
  - now rewrite length_map, length_seq, length_map.
  - intros i Hi. cbv zeta. set (k := Nat.min (i + 1) (Z.to_nat W)).
    rewrite length_map.
    rewrite (nth_error_map_seq _ Hi). cbv beta.
    rewrite (rolling_mean_numbers _ HW Hi).
    destruct (window_start_min i HW) as [Hk Hle].
    rewrite (slice_trailing _ Hi Hle), Hk.
    replace (S i) with (i + 1)%nat by lia. fold k.
    assert (Ek : k = Nat.min (i + 1) (Z.to_nat W)) by reflexivity.
    clearbody k.
    assert (Hlen : length (trailing k (firstn (i + 1) S0)) = k).
    { unfold trailing. rewrite length_skipn, length_firstn. lia. }
    split; [reflexivity|]. split; [exact Hlen|]. split.
    + intros Hlt. split; [lia|].
      unfold trailing. rewrite length_firstn.
      replace (Nat.min (i + 1) (length S0) - k)%nat with 0%nat by lia.
      reflexivity.
    + intros Hge. do 3 f_equal. unfold trailing, slice.
      rewrite length_firstn, skipn_firstn_comm.
      replace (Nat.min (i + 1) (length S0) - k)%nat
        with (i + 1 - Z.to_nat W)%nat by lia.
      reflexivity.
Qed.

Lemma calculate_sma_growing_window_witness :
  exists out,
    calculate_sma (map Some [10; 20; 30]%Q) 2 = Ok out /\
    nth_error out 2 = Some (Some (mean [20; 30]%Q)).
Proof.
  destruct (@calculate_sma_growing_window 2 [10; 20; 30]%Q) as (out & E & _ & H);
    [lia|].
  exists out. split; [exact E|].
  destruct (H 2%nat) as (_ & _ & _ & H4); [simpl; lia|].
  apply H4. simpl. lia.
Defined.

(** ** The loop of [calculate_ema] *)

Lemma for_each_app (St : Type) (body : St -> nat -> result St) (l1 l2 : list nat) (s : St) :
  for_each body (l1 ++ l2) s = (s' <- for_each body l1 s ;; for_each body l2 s').
Proof.
  revert s; induction l1 as [|i l1 IH]; intros s; simpl; [reflexivity|].
  destruct (body s i); simpl; auto.
Qed.

Lemma nth_upd_other (A : Type) (l : list A) (i j : nat) (x d : A) :
  i <> j -> nth j (upd l i x) d = nth j l d.
Proof.
  revert i j; induction l as [|h t IH]; intros [|i] [|j]; simpl; intros H;
    try congruence; auto.
Qed.

Lemma ema_value_upd (series sma : Series) (W : Z) (alpha : Q) (out : Series)
    (k i : nat) (x : option Q) :
  (i <= k)%nat -> (0 < W)%Z ->
  ema_value series sma W alpha (upd out k x) i = ema_value series sma W alpha out i.
Proof.
  intros Hik HW. unfold ema_value.
  destruct (Z.ltb_spec (Z.of_nat i) (W - 1)); [reflexivity|].
  destruct (Z.eqb_spec (Z.of_nat i) (W - 1)); [reflexivity|].
  rewrite nth_upd_other by lia. reflexivity.
Qed.

Lemma ema_step_Ok (series sma : Series) (W : Z) (alpha : Q) (ema : Series) (k : nat) :
  (0 < W)%Z -> (k < length series)%nat -> (k < length sma)%nat -> (k < length ema)%nat ->
  ema_step series sma W alpha ema k
  = Ok (upd ema k (ema_value series sma W alpha ema k)).
Proof.
  intros HW Hs Hm He. unfold ema_step, ema_value.
  destruct (Z.ltb_spec (Z.of_nat k) (W - 1)).
  - rewrite (iloc_lt _ None Hs). simpl. now apply iloc_set_lt.
  - destruct (Z.eqb_spec (Z.of_nat k) (W - 1)).
    + rewrite (iloc_lt _ None Hm). simpl. now apply iloc_set_lt.
    + rewrite (iloc_lt (i := k - 1) ema None) by lia. simpl.
      rewrite (iloc_lt _ None Hs). simpl. now apply iloc_set_lt.
Qed.

(** After [k] iterations the first [k] positions hold their final values
    and the rest is still unset. *)
Lemma ema_loop_prefix (series sma : Series) (W : Z) (alpha : Q) (n : nat) :
  (0 < W)%Z -> length series = n -> length sma = n ->
  forall k, (k <= n)%nat ->
  exists out,
    for_each (ema_step series sma W alpha) (seq 0 k) (repeat None n) = Ok out /\
    length out = n /\
    forall i, (i < k)%nat ->
      nth_error out i = Some (ema_value series sma W alpha out i).
Proof.
  intros HW Hs Hm. induction k as [|k IH]; intros Hk.
  - exists (repeat None n). simpl. split; [reflexivity|].
    split; [apply repeat_length | intros i Hi; lia].
  - destruct IH as (out & Hrun & Hlen & Hval); [lia|].
    rewrite seq_S, for_each_app, Hrun. simpl.
    rewrite ema_step_Ok by lia. simpl.
    eexists; split; [reflexivity|]. split; [now rewrite length_upd|].
    intros i Hi. rewrite ema_value_upd by lia.
    destruct (Nat.eq_dec i k) as [->|Hne].
    + apply nth_error_upd_same. lia.
    + rewrite nth_error_upd_other by lia. apply Hval. lia.
Qed.

Lemma py_fdiv_alpha (W : Z) :
  (0 < W)%Z -> py_fdiv 2 (inject_Z W + 1) = Ok (2 / (inject_Z W + 1))%Q.
Proof.
  intros HW. unfold py_fdiv.
  destruct (Qeq_bool (inject_Z W + 1) 0) eqn:E; [|reflexivity].
  apply Qeq_bool_eq in E. unfold Qeq, Qplus, inject_Z in E. simpl in E. lia.
Qed.

(** For a positive window [calculate_ema] returns, and every position of
    its result holds [ema_value]. *)
Lemma calculate_ema_Ok (series : Series) (W : Z) :
  (0 < W)%Z ->
  exists sma out,
    rolling_mean series W 1 = Ok sma /\
    length sma = length series /\
    calculate_ema series W = Ok out /\
    length out = length series /\
    forall i, (i < length series)%nat ->
      nth_error out i
      = Some (ema_value series sma W (2 / (inject_Z W + 1))%Q out i).
Proof.
  intros HW. unfold calculate_ema.
  rewrite (py_fdiv_alpha HW), (rolling_mean_Ok _ HW). simpl.
  set (sma := map _ (seq 0 (length series))).
  assert (Hm : length sma = length series).
  { unfold sma. now rewrite length_map, length_seq. }
  destruct (@ema_loop_prefix series sma W (2 / (inject_Z W + 1))%Q
              (length series) HW eq_refl Hm (length series) (le_n _))
    as (out & Hrun & Hlen & Hval).
  exists sma, out. auto.
Qed.

Lemma nth_map_Some (S0 : list Q) (i : nat) :
  (i < length S0)%nat -> nth i (map Some S0) None = Some (nth i S0 0%Q).
Proof.
  intros H.
  rewrite <- (map_nth Some S0 0%Q i). apply nth_indep. now rewrite length_map.
Qed.

Lemma rolling_mean_seed (S0 : list Q) (W : Z) (sma : list (option Q)) (i : nat) :
  (0 < W)%Z -> rolling_mean (map Some S0) W 1 = Ok sma ->
  (i < length S0)%nat -> Z.of_nat i = (W - 1)%Z ->
  nth i sma None = Some (mean (firstn (Z.to_nat W) S0)).
Proof.
  intros HW Hsma Hi HiW. rewrite (rolling_mean_Ok _ HW) in Hsma.
  injection Hsma as <-. apply nth_error_nth.
  rewrite length_map, (nth_error_map_seq _ Hi), (rolling_mean_numbers _ HW Hi).
  unfold window_start, slice.
  replace (Z.to_nat (Z.max 0 (Z.of_nat i + 1 - W))) with 0%nat by lia.
  replace (S i - 0)%nat with (Z.to_nat W) by lia. reflexivity.
Qed.

(** On a series of numbers every value of the EMA is a number. *)
Lemma calculate_ema_numbers (S0 : list Q) (W : Z) (sma out : list (option Q)) :
  (0 < W)%Z -> rolling_mean (map Some S0) W 1 = Ok sma ->
  (forall i, (i < length S0)%nat ->
     nth_error out i
     = Some (ema_value (map Some S0) sma W (2 / (inject_Z W + 1))%Q out i)) ->
  forall k i, (i < k)%nat -> (i < length S0)%nat ->
    exists q, nth_error out i = Some (Some q).
Proof.
  intros HW Hsma Hval. induction k as [|k IH]; intros i Hik Hi; [lia|].
  rewrite (Hval i Hi). unfold ema_value.
  destruct (Z.ltb_spec (Z.of_nat i) (W - 1)).
  - rewrite (nth_map_Some _ Hi). eauto.
  - destruct (Z.eqb_spec (Z.of_nat i) (W - 1)) as [E|E].
    + rewrite (rolling_mean_seed _ HW Hsma Hi E). eauto.
    + destruct (IH (i - 1)%nat) as (p & Hp); [lia | lia |].
      rewrite (nth_error_nth _ _ None Hp), (nth_map_Some _ Hi). simpl. eauto.
Qed.

(** C1. For a positive window [W] and a sequence of numbers [S0],
    [calculate_ema] returns a series of the length of [S0] with
    [out[i] = S0[i]] for [i < W-1], [out[W-1] = mean (S0[0..W-1])], and
    [out[i] = (S0[i] - out[i-1]) * alpha + out[i-1]] for [i > W-1], where
    [alpha = 2 / (W + 1)]. *)
Theorem calculate_ema_seed_and_recurrence (W : Z) (S0 : list Q) :
  (0 < W)%Z ->
  exists out,
    calculate_ema (map Some S0) W = Ok out /\
    length out = length S0 /\
    forall i, (i < length S0)%nat ->
      ((Z.of_nat i < W - 1)%Z -> nth_error out i = Some (Some (nth i S0 0%Q))) /\
      (Z.of_nat i = (W - 1)%Z ->
         nth_error out i = Some (Some (mean (firstn (Z.to_nat W) S0)))) /\
      ((W - 1 < Z.of_nat i)%Z ->
         exists prev,
           nth_error out (i - 1) = Some (Some prev) /\
           nth_error out i
           = Some (Some ((nth i S0 0 - prev) * (2 / (inject_Z W + 1)) + prev)%Q)).
Proof.
  intros HW.
  destruct (@calculate_ema_Ok (map Some S0) W HW)
    as (sma & out & Hsma & _ & Hrun & Hlen & Hval).
  rewrite length_map in Hlen, Hval.
  exists out. split; [exact Hrun|]. split; [exact Hlen|].
  intros i Hi. rewrite (Hval i Hi). unfold ema_value.
  split; [|split].
  - intros Hlt. destruct (Z.ltb_spec (Z.of_nat i) (W - 1)); [|lia].
    now rewrite (nth_map_Some _ Hi).
  - intros E. destruct (Z.ltb_spec (Z.of_nat i) (W - 1)); [lia|].
    destruct (Z.eqb_spec (Z.of_nat i) (W - 1)); [|lia].
    now rewrite (rolling_mean_seed _ HW Hsma Hi E).
  - intros Hgt. destruct (Z.ltb_spec (Z.of_nat i) (W - 1)); [lia|].
    destruct (Z.eqb_spec (Z.of_nat i) (W - 1)); [lia|].
    destruct (@calculate_ema_numbers S0 W sma out HW Hsma Hval (S (i - 1)) (i - 1)%nat)
      as (p & Hp); [lia | lia |].
    exists p. split; [exact Hp|].
    now rewrite (nth_error_nth _ _ None Hp), (nth_map_Some _ Hi).
Qed.

Lemma calculate_ema_seed_and_recurrence_witness :
  exists out,
    calculate_ema (map Some [10; 20; 30; 40]%Q) 3 = Ok out /\
    nth_error out 2 = Some (Some (mean [10; 20; 30]%Q)).
Proof.
  destruct (@calculate_ema_seed_and_recurrence 3 [10; 20; 30; 40]%Q)
    as (out & E & _ & H); [lia|].
  exists out. split; [exact E|].
  destruct (H 2%nat) as (_ & H2 & _); [simpl; lia|].
  apply H2. reflexivity.
Defined.

(** C10. For a positive window [W] and a series of at most [W - 1] cells,
    [calculate_ema] returns the series itself: every position takes the
    pass-through branch.  In particular the empty series is returned as
    the empty series. *)
Theorem calculate_ema_short_series (W : Z) (series : list (option Q)) :
  (0 < W)%Z -> (Z.of_nat (length series) <= W - 1)%Z ->
  calculate_ema series W = Ok series /\ calculate_ema [] W = Ok [].
Proof.
  intros HW Hshort.
  assert (Hgen : forall s : list (option Q),
             (Z.of_nat (length s) <= W - 1)%Z -> calculate_ema s W = Ok s).
  { intros s Hs.
    destruct (@calculate_ema_Ok s W HW) as (sma & out & _ & _ & Hrun & Hlen & Hval).
    rewrite Hrun. f_equal. apply nth_error_ext. intros i.
    destruct (Nat.lt_ge_cases i (length s)) as [Hi|Hi].
    - rewrite (Hval i Hi). unfold ema_value.
      destruct (Z.ltb_spec (Z.of_nat i) (W - 1)); [|lia].
      symmetry. now apply nth_error_nth'.
    - transitivity (@None (option Q)); [|symmetry];
        apply nth_error_None; lia. }
  split; [now apply Hgen | apply Hgen; simpl; lia].
Qed.

Lemma calculate_ema_short_series_witness :
  calculate_ema [Some 7; None; Some 5]%Q 4 = Ok [Some 7; None; Some 5]%Q.
Proof.
  apply (@calculate_ema_short_series 4 [Some 7; None; Some 5]%Q); simpl; lia.
Defined.

(** For a window [W <= 0] neither function returns: [calculate_sma]
    raises the [ValueError] of the rolling-window checks, and so does
    [calculate_ema] at every such window but [-1], where the division
    [2.0 / (window + 1.0)], which comes before the call of [rolling],
    raises [ZeroDivisionError]. *)
Theorem nonpositive_window_raises (W : Z) (series : list (option Q)) :
  (W <= 0)%Z ->
  calculate_sma series W = Raise ValueError /\
  calculate_ema series W
  = Raise (if (W =? -1)%Z then ZeroDivisionError else ValueError).
Proof.
  intros HW. split.
  - unfold calculate_sma, rolling_mean, rolling_validate.
    destruct (Z.ltb_spec 1 0); [lia|].
    destruct (Z.ltb_spec W 1); [reflexivity | lia].
  - unfold calculate_ema, py_fdiv.
    destruct (Z.eqb_spec W (-1)) as [->|Hne]; [reflexivity|].
    destruct (Qeq_bool (inject_Z W + 1) 0) eqn:E.
    + apply Qeq_bool_eq in E. unfold Qeq, Qplus, inject_Z in E. simpl in E. lia.
    + simpl. unfold rolling_mean, rolling_validate.
      destruct (Z.ltb_spec 1 0); [lia|].
      destruct (Z.ltb_spec W 1); [reflexivity | lia].
Qed.

Lemma nonpositive_window_raises_witness :
  calculate_sma [Some 1; Some 2]%Q 0 = Raise ValueError /\
  calculate_ema [Some 1; Some 2]%Q 0 = Raise ValueError.
Proof.
  apply (@nonpositive_window_raises 0 [Some 1; Some 2]%Q). lia.
Defined.

(** C4. The code departs from the claim at window [-1]: there
    [calculate_ema] raises [ZeroDivisionError], not the invalid-argument
    error, which [calculate_sma] raises at the same window and
    [calculate_ema] itself at the windows [0] and [-2]. *)
Lemma calculate_ema_window_minus_one :
  calculate_ema [Some 1; Some 2]%Q (-1) = Raise ZeroDivisionError /\
  calculate_sma [Some 1; Some 2]%Q (-1) = Raise ValueError /\
  calculate_ema [Some 1; Some 2]%Q 0 = Raise ValueError /\
  calculate_ema [Some 1; Some 2]%Q (-2) = Raise ValueError /\
  ~ (calculate_sma [Some 1; Some 2]%Q (-1) = Raise ValueError /\
     calculate_ema [Some 1; Some 2]%Q (-1) = Raise ValueError).
Proof.
  split; [reflexivity|]. split; [reflexivity|].
  split; [reflexivity|]. split; [reflexivity|].
  intros [_ H]. discriminate H.
Qed.

(** ** Date order *)

Lemma date_leb_refl (a : Date) : date_leb a a = true.
Proof.
  unfold date_leb. rewrite Z.eqb_refl, Z.leb_refl. apply orb_true_r.
Qed.

Lemma date_leb_le (a b : Date) :
  date_leb a b = true <-> (ym a < ym b \/ (ym a = ym b /\ day a <= day b))%Z.
Proof.
  unfold date_leb.
  rewrite orb_true_iff, andb_true_iff, Z.ltb_lt, Z.eqb_eq, Z.leb_le. tauto.
Qed.

Lemma date_ltb_lt (a b : Date) :
  date_ltb a b = true <-> (ym a < ym b \/ (ym a = ym b /\ day a < day b))%Z.
Proof.
  unfold date_ltb.
  rewrite orb_true_iff, andb_true_iff, !Z.ltb_lt, Z.eqb_eq. tauto.
Qed.

Lemma date_leb_trans (a b c : Date) :
  date_leb a b = true -> date_leb b c = true -> date_leb a c = true.
Proof.
  rewrite !date_leb_le. lia.
Qed.

Lemma date_leb_false (a b : Date) :
  date_leb a b = false -> date_ltb b a = true.
Proof.
  intros H. apply date_ltb_lt.
  destruct (Z.lt_trichotomy (ym a) (ym b)) as [L|[E|G]].
  - assert (date_leb a b = true) by (apply date_leb_le; lia). congruence.
  - destruct (Z.le_gt_cases (day a) (day b)).
    + assert (date_leb a b = true) by (apply date_leb_le; lia). congruence.
    + lia.
  - lia.
Qed.

Lemma date_ltb_leb (a b : Date) : date_ltb a b = true -> date_leb a b = true.
Proof.
  rewrite date_ltb_lt, date_leb_le. lia.
Qed.

Lemma date_leb_neq_ltb (a b : Date) :
  date_leb a b = true -> a <> b -> date_ltb a b = true.
Proof.
  rewrite date_ltb_lt, date_leb_le. intros H Hne.
  destruct a as [ya da], b as [yb db]; simpl in *.
  destruct H as [H|[H1 H2]]; [now left|]. right. split; [assumption|].
  destruct (Z.eq_dec da db); [subst; congruence | lia].
Qed.

Lemma date_ltb_asym (a b : Date) :
  date_ltb a b = true -> date_ltb b a = true -> False.
Proof.
  rewrite !date_ltb_lt. lia.
Qed.

Lemma mkdate_year_month (y m d : Z) :
  (1 <= m <= 12)%Z -> year (mkdate y m d) = y /\ month (mkdate y m d) = m.
Proof.
  intros Hm. unfold year, month, mkdate. simpl.
  assert (E : (y * 12 + (m - 1) = (m - 1) + y * 12)%Z) by lia.
  rewrite E, Z_div_plus, Z_mod_plus by lia.
  rewrite Z.div_small, Z.mod_small by lia. lia.
Qed.

Lemma date_ltb_month_end (k1 k2 : Z) :
  (k1 < k2)%Z -> date_ltb (month_end k1) (month_end k2) = true.
Proof.
  intros H. apply date_ltb_lt. simpl. lia.
Qed.

(** ** Sorted lists *)

Lemma StronglySorted_app_intro (A : Type) (R : A -> A -> Prop) (l1 l2 : list A) :
  StronglySorted R l1 -> StronglySorted R l2 ->
  (forall a b, In a l1 -> In b l2 -> R a b) ->
  StronglySorted R (l1 ++ l2).
Proof.
  induction l1 as [|x l1 IH]; simpl; intros H1 H2 H12; [assumption|].
  apply StronglySorted_inv in H1. destruct H1 as [H1 Hx].
  constructor.
  - apply IH; auto.
  - apply Forall_app. split; [assumption|].
    apply Forall_forall. intros b Hb. apply H12; auto.
Qed.

Lemma StronglySorted_filter (A : Type) (R : A -> A -> Prop) (f : A -> bool) (l : list A) :
  StronglySorted R l -> StronglySorted R (filter f l).
Proof.
  induction 1 as [|a l Hl IH Ha]; simpl; [constructor|].
  destruct (f a); [|assumption].
  constructor; [assumption|].
  apply Forall_forall. intros x Hx. apply filter_In in Hx.
  rewrite Forall_forall in Ha. apply Ha. tauto.
Qed.

Lemma StronglySorted_map (A B : Type) (R : A -> A -> Prop) (R' : B -> B -> Prop)
    (f : A -> B) (l : list A) :
  (forall x y, R x y -> R' (f x) (f y)) ->
  StronglySorted R l -> StronglySorted R' (map f l).
Proof.
  intros Hf. induction 1 as [|a l Hl IH Ha]; simpl; constructor; [assumption|].
  apply Forall_forall. intros y Hy. apply in_map_iff in Hy.
  destruct Hy as (x & <- & Hx). rewrite Forall_forall in Ha. auto.
Qed.

Lemma StronglySorted_unmap (A B : Type) (R : A -> A -> Prop) (R' : B -> B -> Prop)
    (f : A -> B) (l : list A) :
  (forall x y, R' (f x) (f y) -> R x y) ->
  StronglySorted R' (map f l) -> StronglySorted R l.
Proof.
  intros Hf. induction l as [|a l IH]; simpl; intros H; [constructor|].
  apply StronglySorted_inv in H. destruct H as [H Ha].
  constructor; [auto|].
  apply Forall_forall. intros x Hx. apply Hf.
  rewrite Forall_forall in Ha. apply Ha. now apply in_map.
Qed.

Lemma StronglySorted_nth (A : Type) (R : A -> A -> Prop) (l : list A) :
  StronglySorted R l ->
  forall i j a b, (i < j)%nat ->
    nth_error l i = Some a -> nth_error l j = Some b -> R a b.
Proof.
  induction 1 as [|x l Hl IH Hx]; intros i j a b Hij Hi Hj.
  - destruct i; discriminate.
  - destruct j as [|j]; [lia|]. simpl in Hj.
    destruct i as [|i]; simpl in Hi.
    + injection Hi as <-. rewrite Forall_forall in Hx.
      apply Hx. eapply nth_error_In; eauto.
    + apply (IH i j); auto. lia.
Qed.

Lemma StronglySorted_head_least (A : Type) (R : A -> A -> Prop) (a x : A) (l : list A) :
  (forall y, R y y) -> StronglySorted R (a :: l) -> In x (a :: l) -> R a x.
Proof.
  intros Hrefl H Hin. apply StronglySorted_inv in H. destruct H as [_ Ha].
  destruct Hin as [<-|Hin]; [apply Hrefl|].
  rewrite Forall_forall in Ha. auto.
Qed.

Lemma last_In (A : Type) (l : list A) (d : A) : l <> [] -> In (last l d) l.
Proof.
  induction l as [|a l IH]; intros H; [congruence|].
  destruct l as [|b l]; [now left|].
  right. apply IH. discriminate.
Qed.

Lemma StronglySorted_last_greatest (A : Type) (R : A -> A -> Prop) (l : list A) (x d : A) :
  (forall y, R y y) -> StronglySorted R l -> In x l -> R x (last l d).
Proof.
  intros Hrefl. induction 1 as [|a l Hl IH Ha]; intros Hin; [contradiction|].
  destruct l as [|b l].
  - destruct Hin as [<-|[]]. apply Hrefl.
  - change (last (a :: b :: l) d) with (last (b :: l) d).
    destruct Hin as [<-|Hin]; [|auto].
    rewrite Forall_forall in Ha. apply Ha. apply last_In. discriminate.
Qed.

(** ** [sort_index] *)

Lemma insert_row_perm (r : Row) (l : list Row) : Permutation (insert_row r l) (r :: l).
Proof.
  induction l as [|h t IH]; simpl; [reflexivity|].
  destruct (date_leb (date r) (date h)); [reflexivity|].
  rewrite IH. apply perm_swap.
Qed.

Lemma sort_index_perm (df : list Row) : Permutation (sort_index df) df.
Proof.
  induction df as [|r df IH]; simpl; [reflexivity|].
  rewrite insert_row_perm. now constructor.
Qed.

Lemma sort_index_In (df : list Row) (r : Row) : In r (sort_index df) <-> In r df.
Proof.
  split; apply Permutation_in; [|symmetry]; apply sort_index_perm.
Qed.

Lemma insert_row_sorted (r : Row) (l : list Row) :
  StronglySorted date_le l -> StronglySorted date_le (insert_row r l).
Proof.
  induction 1 as [|h t Ht IH Hh]; simpl.
  - constructor; constructor.
  - destruct (date_leb (date r) (date h)) eqn:E.
    + constructor; [constructor; assumption|].
      constructor; [exact E|].
      apply Forall_forall. intros x Hx. rewrite Forall_forall in Hh.
      eapply date_leb_trans; [exact E | now apply Hh].
    + constructor; [assumption|].
      apply Forall_forall. intros x Hx.
      apply (Permutation_in _ (insert_row_perm r t)) in Hx.
      destruct Hx as [<-|Hx].
      * apply date_ltb_leb, date_leb_false, E.
      * rewrite Forall_forall in Hh. now apply Hh.
Qed.

Lemma sort_index_sorted (df : list Row) : StronglySorted date_le (sort_index df).
Proof.
  induction df as [|r df IH]; simpl; [constructor | now apply insert_row_sorted].
Qed.

(** A frame whose index is already in order is left as it is. *)
Lemma sort_index_id (df : list Row) : StronglySorted date_le df -> sort_index df = df.
Proof.
  induction 1 as [|r df Hdf IH Hr]; simpl; [reflexivity|].
  rewrite IH. destruct df as [|h t]; [reflexivity|]. simpl.
  apply Forall_inv in Hr. unfold date_le in Hr. now rewrite Hr.
Qed.

(** ** Aggregations *)

Lemma agg_first_cons (A B : Type) (proj : A -> B) (f : A) (g : list A) :
  agg_first (map (fun d => Some (proj d)) (f :: g)) = Some (proj f).
Proof. reflexivity. Qed.

Lemma agg_last_last (A B : Type) (proj : A -> B) (g : list A) (d0 : A) :
  g <> [] -> agg_last (map (fun d => Some (proj d)) g) = Some (proj (last g d0)).
Proof.
  intros H. destruct (exists_last H) as (g' & z & ->).
  unfold agg_last. rewrite map_app, rev_app_distr, last_last. reflexivity.
Qed.

Lemma qmax_cases (a b : Q) :
  (qmax a b = a \/ qmax a b = b) /\ (a <= qmax a b)%Q /\ (b <= qmax a b)%Q.
Proof.
  unfold qmax. destruct (Qle_bool a b) eqn:E.
  - apply Qle_bool_iff in E. repeat split; auto. apply Qle_refl.
  - assert (Hlt : (b < a)%Q).
    { apply Qnot_le_lt. intros H. apply Qle_bool_iff in H. congruence. }
    repeat split; auto; [apply Qle_refl | now apply Qlt_le_weak].
Qed.

Lemma qmin_cases (a b : Q) :
  (qmin a b = a \/ qmin a b = b) /\ (qmin a b <= a)%Q /\ (qmin a b <= b)%Q.
Proof.
  unfold qmin. destruct (Qle_bool a b) eqn:E.
  - apply Qle_bool_iff in E. repeat split; auto. apply Qle_refl.
  - assert (Hlt : (b < a)%Q).
    { apply Qnot_le_lt. intros H. apply Qle_bool_iff in H. congruence. }
    repeat split; auto; [now apply Qlt_le_weak | apply Qle_refl].
Qed.

Lemma fold_left_qmax (xs : list Q) (x : Q) :
  In (fold_left qmax xs x) (x :: xs) /\
  forall y, In y (x :: xs) -> (y <= fold_left qmax xs x)%Q.
Proof.
  revert x; induction xs as [|a xs IH]; intros x; simpl.
  - split; [now left|]. intros y [<-|[]]. apply Qle_refl.
  - destruct (IH (qmax x a)) as [Hin Hle].
    destruct (qmax_cases x a) as (Hc & Hx & Ha). split.
    + destruct Hin as [Hin|Hin]; [|simpl; auto].
      rewrite <- Hin. destruct Hc as [->| ->]; simpl; auto.
    + intros y [<-|[<-|Hy]].
      * eapply Qle_trans; [exact Hx | apply Hle; now left].
      * eapply Qle_trans; [exact Ha | apply Hle; now left].
      * apply Hle. now right.
Qed.

Lemma fold_left_qmin (xs : list Q) (x : Q) :
  In (fold_left qmin xs x) (x :: xs) /\
  forall y, In y (x :: xs) -> (fold_left qmin xs x <= y)%Q.
Proof.
  revert x; induction xs as [|a xs IH]; intros x; simpl.
  - split; [now left|]. intros y [<-|[]]. apply Qle_refl.
  - destruct (IH (qmin x a)) as [Hin Hle].
    destruct (qmin_cases x a) as (Hc & Hx & Ha). split.
    + destruct Hin as [Hin|Hin]; [|simpl; auto].
      rewrite <- Hin. destruct Hc as [->| ->]; simpl; auto.
    + intros y [<-|[<-|Hy]].
      * eapply Qle_trans; [apply Hle; now left | exact Hx].
      * eapply Qle_trans; [apply Hle; now left | exact Ha].
      * apply Hle. now right.
Qed.

Lemma dropna_cells_map_Some (A B : Type) (proj : A -> B) (g : list A) :
  dropna_cells (map (fun d => Some (proj d)) g) = map proj g.
Proof.
  induction g as [|a g IH]; simpl; congruence.
Qed.

Lemma agg_max_numbers (A : Type) (proj : A -> Q) (g : list A) :
  g <> [] ->
  exists h, agg_max (map (fun d => Some (proj d)) g) = Some h /\
            In h (map proj g) /\ forall x, In x (map proj g) -> (x <= h)%Q.
Proof.
  intros H. unfold agg_max. rewrite dropna_cells_map_Some.
  destruct g as [|f g]; [congruence|]. simpl map.
  destruct (fold_left_qmax (map proj g) (proj f)) as [Hin Hle]. eauto.
Qed.

Lemma agg_min_numbers (A : Type) (proj : A -> Q) (g : list A) :
  g <> [] ->
  exists m, agg_min (map (fun d => Some (proj d)) g) = Some m /\
            In m (map proj g) /\ forall x, In x (map proj g) -> (m <= x)%Q.
Proof.
  intros H. unfold agg_min. rewrite dropna_cells_map_Some.
  destruct g as [|f g]; [congruence|]. simpl map.
  destruct (fold_left_qmin (map proj g) (proj f)) as [Hin Hle]. eauto.
Qed.

Lemma int64_small (z : Z) : (- 2 ^ 63 <= z < 2 ^ 63)%Z -> int64 z = z.
Proof.
  intros H. unfold int64. rewrite Z.mod_small; lia.
Qed.

Lemma int64_add_l (a b : Z) : int64 (int64 a + b) = int64 (a + b).
Proof.
  unfold int64. f_equal.
  replace ((a + 2 ^ 63) mod 2 ^ 64 - 2 ^ 63 + b + 2 ^ 63)%Z
    with ((a + 2 ^ 63) mod 2 ^ 64 + b)%Z by lia.
  rewrite Z.add_mod_idemp_l by lia. f_equal. lia.
Qed.

(** Adding up in [int64] gives the sum, reduced once at the end. *)
Lemma fold_left_add64 (l : list Z) (a : Z) :
  fold_left add64 l (int64 a) = int64 (a + fold_right Z.add 0%Z l).
Proof.
  revert a; induction l as [|x l IH]; intros a; simpl.
  - f_equal. lia.
  - unfold add64 at 2. rewrite int64_add_l, IH. f_equal. lia.
Qed.

Lemma agg_sum_cells (l : list (option Z)) :
  agg_sum l = Some (int64 (fold_right Z.add 0%Z (dropna_cells l))).
Proof.
  unfold agg_sum. change 0%Z with (int64 0) at 1. now rewrite fold_left_add64.
Qed.


(** ** The bins of [monthly_candidates] *)

Lemma monthly_candidates_inv (df : list Row) (o : Row) :
  In o (monthly_candidates df) ->
  exists t k,
    In t (group_keys df) /\
    o = agg_bin t k
          (filter (fun r => (ym (date r) =? k)%Z)
                  (sort_index (filter (fun r => String.eqb (ticker r) t) df))).
Proof.
  unfold monthly_candidates. intros H. apply in_flat_map in H.
  destruct H as (t & Ht & Ho). exists t.
  unfold resample_ME_agg in Ho.
  destruct (sort_index (filter (fun r => String.eqb (ticker r) t) df)) as [|first rest];
    [contradiction|].
  apply in_map_iff in Ho. destruct Ho as (k & <- & _). eauto.
Qed.

Lemma sorted_within_instrument_filter (df : list Row) (t : string) :
  sorted_within_instrument df = true ->
  StronglySorted date_le (filter (fun r => String.eqb (ticker r) t) df).
Proof.
  induction df as [|r df IH]; simpl; intros H; [constructor|].
  apply andb_true_iff in H. destruct H as [Hr Hdf].
  destruct (String.eqb_spec (ticker r) t) as [E|E]; [|auto].
  constructor; [auto|].
  apply Forall_forall. intros x Hx. apply filter_In in Hx. destruct Hx as [Hx Ex].
  rewrite forallb_forall in Hr. specialize (Hr x Hx).
  apply String.eqb_eq in Ex. rewrite Ex, <- E, String.eqb_refl in Hr. exact Hr.
Qed.

Lemma bin_of_records (S0 : list DailyRecord) (t : string) (k : Z) :
  filter (fun r => (ym (date r) =? k)%Z)
         (filter (fun r => String.eqb (ticker r) t) (map to_row S0))
  = map to_row (month_group S0 t k).
Proof.
  unfold month_group. induction S0 as [|d S0 IH]; simpl; [reflexivity|].
  destruct (String.eqb (d_ticker d) t); simpl; [|assumption].
  destruct (ym (d_date d) =? k)%Z; simpl; congruence.
Qed.

(** The candidate rows of a frame of daily records that is in date order
    within every ticker. *)
Lemma monthly_candidates_records (S0 : list DailyRecord) (o : Row) :
  sorted_within_instrument (map to_row S0) = true ->
  In o (monthly_candidates (map to_row S0)) ->
  exists t k, o = agg_bin t k (map to_row (month_group S0 t k)).
Proof.
  intros Hs Ho. destruct (monthly_candidates_inv _ _ Ho) as (t & k & _ & E).
  rewrite (sort_index_id (sorted_within_instrument_filter _ t Hs)), bin_of_records in E.
  eauto.
Qed.


Lemma has_ohlc_records (t : string) (k : Z) (g : list DailyRecord) :
  has_ohlc (agg_bin t k (map to_row g)) = match g with [] => false | _ :: _ => true end.
Proof.
  destruct g as [|f g]; [reflexivity|].
  unfold has_ohlc, agg_bin. cbn [open high low close].
  rewrite !map_map. cbn [to_row open high low close].
  rewrite agg_first_cons.
  destruct (@agg_max_numbers _ d_high (f :: g)) as (h & -> & _); [discriminate|].
  destruct (@agg_min_numbers _ d_low (f :: g)) as (m & -> & _); [discriminate|].
  rewrite (@agg_last_last _ _ d_close (f :: g) f); [reflexivity | discriminate].
Qed.


(** ** Which bins there are *)

Lemma insert_key_perm (t : string) (l : list string) :
  Permutation (insert_key t l) (t :: l).
Proof.
  induction l as [|h rest IH]; simpl; [reflexivity|].
  destruct (String.leb t h); [reflexivity|].
  rewrite IH. apply perm_swap.
Qed.

Lemma group_keys_perm (df : list Row) :
  Permutation (group_keys df) (nodup string_dec (map ticker df)).
Proof.
  unfold group_keys.
  induction (nodup string_dec (map ticker df)) as [|t l IH]; simpl; [reflexivity|].
  rewrite insert_key_perm. now constructor.
Qed.

Lemma group_keys_In (df : list Row) (t : string) :
  In t (group_keys df) <-> exists r, In r df /\ ticker r = t.
Proof.
  split.
  - intros H. apply (Permutation_in _ (group_keys_perm df)) in H.
    apply nodup_In, in_map_iff in H. destruct H as (r & E & Hr). eauto.
  - intros (r & Hr & <-).
    apply (Permutation_in _ (Permutation_sym (group_keys_perm df))).
    apply nodup_In, in_map, Hr.
Qed.

Lemma group_keys_NoDup (df : list Row) : NoDup (group_keys df).
Proof.
  apply (Permutation_NoDup (Permutation_sym (group_keys_perm df))), NoDup_nodup.
Qed.

Lemma month_range_In (a b k : Z) : In k (month_range a b) <-> (a <= k <= b)%Z.
Proof.
  unfold month_range. rewrite in_map_iff. split.
  - intros (i & <- & Hi). apply in_seq in Hi. lia.
  - intros H. exists (Z.to_nat (k - a)). split; [lia|]. apply in_seq. lia.
Qed.

Lemma date_leb_ym (a b : Date) : date_leb a b = true -> (ym a <= ym b)%Z.
Proof.
  rewrite date_leb_le. lia.
Qed.

(** There is a candidate row for every month between two rows of a
    ticker, whether or not the ticker has a row in that month. *)
Lemma monthly_candidates_cover (df : list Row) (r1 r2 : Row) (k : Z) :
  In r1 df -> In r2 df -> ticker r2 = ticker r1 ->
  (ym (date r1) <= k <= ym (date r2))%Z ->
  exists c, In c (monthly_candidates df) /\ ticker c = ticker r1 /\ date c = month_end k.
Proof.
  intros H1 H2 Et Hk.
  set (t := ticker r1). set (g := filter (fun r => String.eqb (ticker r) t) df).
  assert (G1 : In r1 (sort_index g)).
  { apply sort_index_In, filter_In. split; [assumption | apply String.eqb_refl]. }
  assert (G2 : In r2 (sort_index g)).
  { apply sort_index_In, filter_In. split; [assumption|]. rewrite Et. apply String.eqb_refl. }
  pose proof (sort_index_sorted g) as Hsorted.
  exists (agg_bin t k (filter (fun r => (ym (date r) =? k)%Z) (sort_index g))).
  split; [|split; reflexivity].
  unfold monthly_candidates. apply in_flat_map. exists t. split.
  - apply group_keys_In. eauto.
  - unfold resample_ME_agg. fold g.
    destruct (sort_index g) as [|first rest] eqn:Es; [contradiction|].
    apply in_map_iff. exists k. split; [reflexivity|].
    apply month_range_In. split.
    + apply Z.le_trans with (ym (date r1)); [|lia]. apply date_leb_ym.
      apply (StronglySorted_head_least (R := date_le) (l := rest)); auto.
      intros y. apply date_leb_refl.
    + apply Z.le_trans with (ym (date r2)); [lia|]. apply date_leb_ym.
      apply (StronglySorted_last_greatest (R := date_le)); auto.
      intros y. apply date_leb_refl.
Qed.

(** A row that survives [dropna] comes from a bin with a row in it. *)
(** There are candidate rows only for the months from the first to the
    last row of a ticker. *)
Lemma monthly_candidates_between (df : list Row) (c : Row) :
  In c (monthly_candidates df) ->
  exists r1 r2,
    In r1 df /\ In r2 df /\ ticker r1 = ticker c /\ ticker r2 = ticker c /\
    (ym (date r1) <= ym (date c) <= ym (date r2))%Z /\
    date c = month_end (ym (date c)).
Proof.
  unfold monthly_candidates. intros H. apply in_flat_map in H.
  destruct H as (t & _ & Hc). unfold resample_ME_agg in Hc.
  destruct (sort_index (filter (fun r => String.eqb (ticker r) t) df))
    as [|first rest] eqn:Es; [contradiction|].
  apply in_map_iff in Hc. destruct Hc as (k & <- & Hk).
  apply month_range_In in Hk.
  assert (Hin : forall r, In r (first :: rest) -> In r df /\ ticker r = t).
  { intros r Hr. rewrite <- Es in Hr. apply sort_index_In, filter_In in Hr.
    destruct Hr as [Hr Et]. apply String.eqb_eq in Et. auto. }
  destruct (Hin first (or_introl eq_refl)) as [H1 E1].
  destruct (Hin (last (first :: rest) first)) as [H2 E2];
    [apply last_In; discriminate|].
  exists first, (last (first :: rest) first).
  cbn [agg_bin ticker date month_end ym]. auto 10.
Qed.

Lemma has_ohlc_bin_nonempty (t : string) (k : Z) (bin : list Row) :
  has_ohlc (agg_bin t k bin) = true -> exists r, In r bin.
Proof.
  destruct bin as [|r bin]; [discriminate|]. intros _. exists r. now left.
Qed.

(** C5. A candidate row whose open, high, low or close is missing is
    dropped, not raised on: it is not in the output.  The row of a bin
    without rows is such a candidate (its cells are missing, its volume is
    0).  So the output has no row for a month in which the instrument has
    no row in the input. *)
Theorem aggregate_monthly_ohlc_drops_missing (df : list Row) :
  (forall c, In c (monthly_candidates df) -> has_ohlc c = false ->
             ~ In c (aggregate_monthly_ohlc df)) /\
  (forall o, In o (aggregate_monthly_ohlc df) ->
             In o (monthly_candidates df) /\ has_ohlc o = true) /\
  (forall t k, has_ohlc (agg_bin t k []) = false) /\
  (forall t k,
     (forall r, In r df -> ticker r = t -> ym (date r) <> k) ->
     forall o, In o (aggregate_monthly_ohlc df) ->
               ~ (ticker o = t /\ ym (date o) = k)).
Proof.
  unfold aggregate_monthly_ohlc, dropna_ohlc.
  split; [|split; [|split]].
  - intros c _ Hc Hin. apply filter_In in Hin. destruct Hin as [_ Hin]. congruence.
  - intros o Ho. now apply filter_In in Ho.
  - reflexivity.
  - intros t k Hnone o Ho [Et Ek]. apply filter_In in Ho. destruct Ho as [Hc Hoh].
    destruct (monthly_candidates_inv _ _ Hc) as (t' & k' & _ & ->).
    cbn [ticker date agg_bin month_end ym] in Et, Ek. subst t' k'.
    destruct (has_ohlc_bin_nonempty _ _ _ Hoh) as (r & Hr).
    apply filter_In in Hr. destruct Hr as [Hr Hk].
    apply sort_index_In, filter_In in Hr. destruct Hr as [Hr Ht].
    apply String.eqb_eq in Ht. apply Z.eqb_eq in Hk.
    exact (Hnone r Hr Ht Hk).
Qed.

(** C6 (as amended). For daily records in date order within every
    instrument, the frame before [dropna] has a row for every month
    between two records of an instrument, and for such months only; a row
    of it has a missing open, high, low or close exactly when the
    instrument has no record in the month of the row; [dropna] removes
    exactly these rows; and it removes nothing exactly when every
    instrument has a record in every month between two of its records. *)
Theorem dropna_removes_months_without_records (S0 : list DailyRecord) :
  sorted_within_instrument (map to_row S0) = true ->
  (forall d1 d2 k, In d1 S0 -> In d2 S0 -> d_ticker d2 = d_ticker d1 ->
     (ym (d_date d1) <= k <= ym (d_date d2))%Z ->
     exists c, In c (monthly_candidates (map to_row S0)) /\
               ticker c = d_ticker d1 /\ date c = month_end k) /\
  (forall c, In c (monthly_candidates (map to_row S0)) ->
     exists d1 d2, In d1 S0 /\ In d2 S0 /\
       d_ticker d1 = ticker c /\ d_ticker d2 = ticker c /\
       (ym (d_date d1) <= ym (date c) <= ym (d_date d2))%Z /\
       date c = month_end (ym (date c))) /\
  (forall c, In c (monthly_candidates (map to_row S0)) ->
     (has_ohlc c = false <-> month_group S0 (ticker c) (ym (date c)) = [])) /\
  (forall c, In c (aggregate_monthly_ohlc (map to_row S0)) <->
     In c (monthly_candidates (map to_row S0)) /\
     month_group S0 (ticker c) (ym (date c)) <> []) /\
  (aggregate_monthly_ohlc (map to_row S0) = monthly_candidates (map to_row S0) <->
   forall d1 d2 k, In d1 S0 -> In d2 S0 -> d_ticker d2 = d_ticker d1 ->
     (ym (d_date d1) <= k <= ym (d_date d2))%Z ->
     month_group S0 (d_ticker d1) k <> []).
Proof.
  intros Hs.
  assert (Hiff : forall c, In c (monthly_candidates (map to_row S0)) ->
            (has_ohlc c = false <-> month_group S0 (ticker c) (ym (date c)) = [])).
  { intros c Hc. destruct (monthly_candidates_records _ _ Hs Hc) as (t & k & ->).
    rewrite has_ohlc_records. cbn [ticker date agg_bin month_end ym].
    destruct (month_group S0 t k); split; intros; try reflexivity; discriminate. }
  assert (Hcover : forall d1 d2 k, In d1 S0 -> In d2 S0 -> d_ticker d2 = d_ticker d1 ->
            (ym (d_date d1) <= k <= ym (d_date d2))%Z ->
            exists c, In c (monthly_candidates (map to_row S0)) /\
                      ticker c = d_ticker d1 /\ date c = month_end k).
  { intros d1 d2 k H1 H2 Et Hk.
    apply (@monthly_candidates_cover (map to_row S0) (to_row d1) (to_row d2) k);
      auto using in_map. }
  assert (Hbetween : forall c, In c (monthly_candidates (map to_row S0)) ->
            exists d1 d2, In d1 S0 /\ In d2 S0 /\
              d_ticker d1 = ticker c /\ d_ticker d2 = ticker c /\
              (ym (d_date d1) <= ym (date c) <= ym (d_date d2))%Z /\
              date c = month_end (ym (date c))).
  { intros c Hc.
    destruct (monthly_candidates_between _ _ Hc)
      as (r1 & r2 & H1 & H2 & E1 & E2 & Hk & Ed).
    apply in_map_iff in H1. destruct H1 as (d1 & <- & H1).
    apply in_map_iff in H2. destruct H2 as (d2 & <- & H2).
    exists d1, d2. auto 10. }
  split; [exact Hcover|]. split; [exact Hbetween|].
  split; [exact Hiff|]. split; [|split].
  - intros c. unfold aggregate_monthly_ohlc, dropna_ohlc. rewrite filter_In.
    split; intros [Hc H]; (split; [exact Hc|]).
    + intros E. apply (Hiff c Hc) in E. congruence.
    + destruct (has_ohlc c) eqn:E; [reflexivity|].
      apply (Hiff c Hc) in E. contradiction.
  - intros Hsame d1 d2 k H1 H2 Et Hk E.
    destruct (Hcover d1 d2 k H1 H2 Et Hk) as (c & Hc & Ec & Ed).
    assert (Hoh : has_ohlc c = false).
    { apply (Hiff c Hc). rewrite Ec, Ed. exact E. }
    rewrite <- Hsame in Hc. apply filter_In in Hc. destruct Hc as [_ Hc].
    congruence.
  - intros Hall. unfold aggregate_monthly_ohlc, dropna_ohlc.
    apply forallb_filter_id, forallb_forall. intros c Hc.
    destruct (has_ohlc c) eqn:E; [reflexivity|].
    apply (Hiff c Hc) in E.
    destruct (Hbetween c Hc) as (d1 & d2 & H1 & H2 & E1 & E2 & Hk & _).
    exfalso. apply (Hall d1 d2 (ym (date c)) H1 H2); [congruence | exact Hk|].
    now rewrite E1.
Qed.

(** The January example: one row, with the first open, the last close,
    the greatest high, the least low and the sum of the volumes. *)
Example aggregate_january :
  aggregate_monthly_ohlc (map to_row january_records) = [january_row].
Proof. vm_compute. reflexivity. Qed.



Lemma dropna_removes_months_without_records_witness :
  has_ohlc february_row = false <->
  month_group gap_records (ticker february_row) (ym (date february_row)) = [].
Proof.
  destruct (@dropna_removes_months_without_records gap_records) as (_ & _ & H & _).
  - reflexivity.
  - apply H. vm_compute. right. left. reflexivity.
Defined.

(** C6, as stated, fails: the records of [gap_records] are well formed,
    the frame before [dropna] has a row without open, high, low and close
    (that of February), and [dropna] removes it. *)
Lemma gap_month_row_is_dropped :
  sorted_within_instrument (map to_row gap_records) = true /\
  In february_row (monthly_candidates (map to_row gap_records)) /\
  has_ohlc february_row = false /\
  ~ In february_row (aggregate_monthly_ohlc (map to_row gap_records)) /\
  aggregate_monthly_ohlc (map to_row gap_records)
  <> monthly_candidates (map to_row gap_records).
Proof.
  split; [reflexivity|].
  split; [vm_compute; right; left; reflexivity|].
  split; [reflexivity|].
  split.
  - intros H. apply filter_In in H. destruct H as [_ H]. discriminate.
  - intros H. apply (f_equal (@length Row)) in H. vm_compute in H. discriminate.
Qed.

(** ** Order of the output *)

Section Blocks.

Variables (K R : Type) (key : R -> K).

Lemma filter_flat_map (A : Type) (f : R -> bool) (blk : A -> list R) (l : list A) :
  filter f (flat_map blk l) = flat_map (fun x => filter f (blk x)) l.
Proof.
  induction l as [|x l IH]; simpl; [reflexivity|].
  now rewrite filter_app, IH.
Qed.

(** Putting a block of one key in front of rows of other keys. *)
Lemma contiguous_app (t : K) (l1 l2 : list R) :
  (forall r, In r l1 -> key r = t) ->
  (forall r, In r l2 -> key r <> t) ->
  (forall i j k a c b, (i <= j <= k)%nat ->
     nth_error l2 i = Some a -> nth_error l2 j = Some c -> nth_error l2 k = Some b ->
     key a = key b -> key c = key a) ->
  forall i j k a c b, (i <= j <= k)%nat ->
    nth_error (l1 ++ l2) i = Some a -> nth_error (l1 ++ l2) j = Some c ->
    nth_error (l1 ++ l2) k = Some b ->
    key a = key b -> key c = key a.
Proof.
  intros H1 H2 IH i j k a c b Hijk Ha Hc Hb E.
  destruct (Nat.lt_ge_cases k (length l1)) as [Hk|Hk].
  - rewrite nth_error_app1 in Ha, Hc by lia.
    apply nth_error_In in Ha, Hc. rewrite (H1 a Ha), (H1 c Hc). reflexivity.
  - rewrite nth_error_app2 in Hb by lia.
    destruct (Nat.lt_ge_cases i (length l1)) as [Hi|Hi].
    + rewrite nth_error_app1 in Ha by lia.
      apply nth_error_In in Ha, Hb. exfalso.
      apply (H2 b Hb). rewrite <- E. now apply H1.
    + rewrite nth_error_app2 in Ha, Hc by lia.
      apply (IH (i - length l1) (j - length l1) (k - length l1))%nat with (b := b);
        auto. lia.
Qed.

Lemma contiguous_flat_map (blk : K -> list R) (keys : list K) :
  NoDup keys ->
  (forall t r, In r (blk t) -> key r = t) ->
  forall i j k a c b, (i <= j <= k)%nat ->
    nth_error (flat_map blk keys) i = Some a ->
    nth_error (flat_map blk keys) j = Some c ->
    nth_error (flat_map blk keys) k = Some b ->
    key a = key b -> key c = key a.
Proof.
  intros Hnd Hblk. induction Hnd as [|t keys Ht Hnd IH]; simpl.
  - intros i j k a c b _ Ha. destruct i; discriminate.
  - apply contiguous_app with (t := t); auto.
    intros r Hr E. apply in_flat_map in Hr. destruct Hr as (t' & Ht' & Hr).
    apply Hblk in Hr. congruence.
Qed.

Lemma sorted_flat_map (lt : R -> R -> Prop) (blk : K -> list R) (keys : list K) :
  NoDup keys ->
  (forall t r, In r (blk t) -> key r = t) ->
  (forall t, StronglySorted lt (blk t)) ->
  StronglySorted (fun a b => key a = key b -> lt a b) (flat_map blk keys).
Proof.
  intros Hnd Hblk Hs. induction Hnd as [|t keys Ht Hnd IH]; simpl; [constructor|].
  apply StronglySorted_app_intro; [|exact IH|].
  - specialize (Hs t). induction Hs as [|a l Hl IHl Ha]; constructor; auto.
    apply Forall_forall. intros b Hb _. rewrite Forall_forall in Ha. auto.
  - intros a b Ha Hb E. exfalso.
    apply in_flat_map in Hb. destruct Hb as (t' & Ht' & Hb).
    apply Hblk in Ha, Hb. congruence.
Qed.

End Blocks.

Lemma month_range_sorted (a b : Z) : StronglySorted Z.lt (month_range a b).
Proof.
  unfold month_range. generalize (Z.to_nat (b - a + 1)) as n, 0%nat as s.
  induction n as [|n IH]; intros s; simpl; constructor; [apply IH|].
  apply Forall_forall. intros k Hk. apply in_map_iff in Hk.
  destruct Hk as (i & <- & Hi). apply in_seq in Hi. lia.
Qed.

Lemma resample_ME_agg_ticker (t : string) (g : list Row) (r : Row) :
  In r (resample_ME_agg t g) -> ticker r = t.
Proof.
  unfold resample_ME_agg. destruct (sort_index g) as [|first rest]; [contradiction|].
  intros H. apply in_map_iff in H. destruct H as (k & <- & _). reflexivity.
Qed.

Lemma resample_ME_agg_sorted (t : string) (g : list Row) :
  StronglySorted date_lt (resample_ME_agg t g).
Proof.
  unfold resample_ME_agg. destruct (sort_index g) as [|first rest]; [constructor|].
  apply StronglySorted_map with (R := Z.lt); [|apply month_range_sorted].
  intros k1 k2 H. apply date_ltb_month_end, H.
Qed.

Lemma aggregate_monthly_ohlc_blocks (df : list Row) :
  aggregate_monthly_ohlc df
  = flat_map (fun t => filter has_ohlc
                         (resample_ME_agg t (filter (fun r => String.eqb (ticker r) t) df)))
             (group_keys df).
Proof.
  unfold aggregate_monthly_ohlc, dropna_ohlc, monthly_candidates.
  apply filter_flat_map.
Qed.

(** C8. The output of [aggregate_monthly_ohlc] is grouped by instrument,
    the rows of one instrument being contiguous, and within an instrument
    the rows are in ascending order of their month. *)
Theorem aggregate_monthly_ohlc_order (df : list Row) :
  grouped_by_instrument (aggregate_monthly_ohlc df) /\
  ascending_within_instrument (aggregate_monthly_ohlc df).
Proof.
  rewrite aggregate_monthly_ohlc_blocks.
  assert (Hblk : forall t r,
             In r (filter has_ohlc
                     (resample_ME_agg t (filter (fun r => String.eqb (ticker r) t) df))) ->
             ticker r = t).
  { intros t r Hr. apply filter_In in Hr. destruct Hr as [Hr _].
    eapply resample_ME_agg_ticker, Hr. }
  split.
  - unfold grouped_by_instrument.
    apply contiguous_flat_map; [apply group_keys_NoDup | exact Hblk].
  - unfold ascending_within_instrument. intros i j a b Hij Ha Hb E.
    revert E.
    apply (StronglySorted_nth
             (R := fun a b => ticker a = ticker b -> date_lt a b)) with (3 := Ha) (4 := Hb);
      [|exact Hij].
    apply sorted_flat_map; [apply group_keys_NoDup | exact Hblk |].
    intros t. apply StronglySorted_filter, resample_ME_agg_sorted.
Qed.

(** ** Running [add_technical_indicators] *)

Lemma bindM_Ok (A B : Type) (m : M A) (k : A -> M B) (st st' : list (list Row)) (a : A) :
  m st = Ok (a, st') -> bindM m k st = k a st'.
Proof.
  intros H. unfold bindM. now rewrite H.
Qed.

(** One step of a run: the first command of a sequence returns. *)
Ltac run_step H := rewrite (@bindM_Ok _ _ _ _ _ _ _ H).

Lemma lift_Ok (A : Type) (r : result A) (a : A) (st : list (list Row)) :
  r = Ok a -> lift r st = Ok (a, st).
Proof.
  intros ->. reflexivity.
Qed.

Lemma nth_error_last (A : Type) (l : list A) (x : A) :
  nth_error (l ++ [x]) (length l) = Some x.
Proof.
  rewrite nth_error_app2, Nat.sub_diag by lia. reflexivity.
Qed.

Lemma upd_last (A : Type) (l : list A) (x y : A) :
  upd (l ++ [x]) (length l) y = l ++ [y].
Proof.
  induction l as [|h t IH]; simpl; congruence.
Qed.

Lemma df_copy_run (st : list (list Row)) (df : nat) (f : list Row) :
  nth_error st df = Some f -> df_copy df st = Ok (length st, st ++ [f]).
Proof.
  intros H. unfold df_copy, bindM, load, alloc. now rewrite H.
Qed.

Lemma df_sort_index_last (st : list (list Row)) (f : list Row) :
  df_sort_index (length st) (st ++ [f])
  = Ok (length (st ++ [f]), (st ++ [f]) ++ [sort_index f]).
Proof.
  unfold df_sort_index, bindM, load, alloc. now rewrite nth_error_last.
Qed.

Lemma df_getitem_close_last (st : list (list Row)) (g : list Row) :
  df_getitem_close (length st) (st ++ [g]) = Ok (map close g, st ++ [g]).
Proof.
  unfold df_getitem_close, bindM, load, ret. now rewrite nth_error_last.
Qed.

Lemma df_setitem_last (setter : Row -> option Q -> Row) (st : list (list Row))
    (g : list Row) (values : list (option Q)) :
  length values = length g ->
  df_setitem setter (length st) values (st ++ [g])
  = Ok (tt, st ++ [zip_rows setter g values]).
Proof.
  intros H. unfold df_setitem, bindM, load, store.
  rewrite nth_error_last, H, Nat.eqb_refl, length_app. simpl.
  destruct (Nat.ltb_spec (length st) (length st + 1)); [|lia].
  now rewrite upd_last.
Qed.

Lemma zip_rows_nth (setter : Row -> option Q -> Row) (g : list Row)
    (values : list (option Q)) (i : nat) :
  nth_error (zip_rows setter g values) i
  = match nth_error g i, nth_error values i with
    | Some r, Some v => Some (setter r v)
    | _, _ => None
    end.
Proof.
  unfold zip_rows. revert values i.
  induction g as [|r g IH]; intros [|v values] [|i]; simpl; auto.
  - destruct (nth_error g i); reflexivity.
Qed.

Lemma zip_rows_proj (B : Type) (proj : Row -> B) (setter : Row -> option Q -> Row)
    (g : list Row) (values : list (option Q)) :
  (forall r v, proj (setter r v) = proj r) ->
  length values = length g ->
  map proj (zip_rows setter g values) = map proj g.
Proof.
  intros Hp. unfold zip_rows. revert values.
  induction g as [|r g IH]; intros [|v values] H; simpl in *; try discriminate; auto.
  rewrite Hp. f_equal. apply IH. lia.
Qed.

Lemma length_zip_rows (setter : Row -> option Q -> Row) (g : list Row)
    (values : list (option Q)) :
  length values = length g -> length (zip_rows setter g values) = length g.
Proof.
  intros H. unfold zip_rows. rewrite length_map, length_combine. lia.
Qed.

Lemma calculate_sma_length (series : list (option Q)) (W : Z) :
  (0 < W)%Z -> exists out, calculate_sma series W = Ok out /\ length out = length series.
Proof.
  intros HW. unfold calculate_sma. rewrite (rolling_mean_Ok _ HW).
  eexists; split; [reflexivity|]. now rewrite length_map, length_seq.
Qed.

Lemma calculate_ema_length (series : list (option Q)) (W : Z) :
  (0 < W)%Z -> exists out, calculate_ema series W = Ok out /\ length out = length series.
Proof.
  intros HW. destruct (calculate_ema_Ok series HW) as (sma & out & _ & _ & H & Hl & _).
  eauto.
Qed.

(** The run of [add_technical_indicators] on a frame [f] at address [df]:
    two new objects are made, a copy of [f] and the sorted frame, and the
    four columns are set in the latter. *)
Lemma add_technical_indicators_run (st : list (list Row)) (df : nat) (f : list Row) :
  nth_error st df = Some f ->
  exists s10 s20 e10 e20,
    calculate_sma (map close (sort_index f)) 10 = Ok s10 /\
    calculate_sma (map close (sort_index f)) 20 = Ok s20 /\
    calculate_ema (map close (sort_index f)) 10 = Ok e10 /\
    calculate_ema (map close (sort_index f)) 20 = Ok e20 /\
    length s10 = length f /\ length s20 = length f /\
    length e10 = length f /\ length e20 = length f /\
    add_technical_indicators df st
    = Ok (length (st ++ [f]),
          (st ++ [f]) ++ [with_indicators (sort_index f) s10 s20 e10 e20]).
Proof.
  intros Hdf. set (g := sort_index f).
  assert (Hg : length g = length f).
  { apply Permutation_length, sort_index_perm. }
  destruct (@calculate_sma_length (map close g) 10) as (s10 & H10 & L10); [lia|].
  destruct (@calculate_sma_length (map close g) 20) as (s20 & H20 & L20); [lia|].
  destruct (@calculate_ema_length (map close g) 10) as (e10 & E10 & M10); [lia|].
  destruct (@calculate_ema_length (map close g) 20) as (e20 & E20 & M20); [lia|].
  rewrite length_map in L10, L20, M10, M20.
  exists s10, s20, e10, e20.
  repeat (split; [congruence|]).
  unfold add_technical_indicators, with_indicators. fold g.
  set (g1 := zip_rows set_SMA_10 g s10).
  set (g2 := zip_rows set_SMA_20 g1 s20).
  set (g3 := zip_rows set_EMA_10 g2 e10).
  assert (L1 : length g1 = length g) by (apply length_zip_rows; congruence).
  assert (L2 : length g2 = length g) by (unfold g2; rewrite length_zip_rows; congruence).
  assert (L3 : length g3 = length g) by (unfold g3; rewrite length_zip_rows; congruence).
  assert (C1 : map close g1 = map close g) by (apply zip_rows_proj; [reflexivity | congruence]).
  assert (C2 : map close g2 = map close g).
  { unfold g2. rewrite zip_rows_proj; [assumption | reflexivity | congruence]. }
  assert (C3 : map close g3 = map close g).
  { unfold g3. rewrite zip_rows_proj; [assumption | reflexivity | congruence]. }
  run_step (@df_copy_run _ _ _ Hdf).
  run_step (df_sort_index_last st f). fold g.
  set (st' := st ++ [f]).
  run_step (df_getitem_close_last st' g).
  run_step (@lift_Ok _ _ _ (st' ++ [g]) H10).
  run_step (@df_setitem_last set_SMA_10 st' g s10 ltac:(congruence)). fold g1.
  run_step (df_getitem_close_last st' g1). rewrite C1.
  run_step (@lift_Ok _ _ _ (st' ++ [g1]) H20).
  run_step (@df_setitem_last set_SMA_20 st' g1 s20 ltac:(congruence)). fold g2.
  run_step (df_getitem_close_last st' g2). rewrite C2.
  run_step (@lift_Ok _ _ _ (st' ++ [g2]) E10).
  run_step (@df_setitem_last set_EMA_10 st' g2 e10 ltac:(congruence)). fold g3.
  run_step (df_getitem_close_last st' g3). rewrite C3.
  run_step (@lift_Ok _ _ _ (st' ++ [g3]) E20).
  run_step (@df_setitem_last set_EMA_20 st' g3 e20 ltac:(congruence)).
  reflexivity.
Qed.

Lemma with_indicators_nth (g : list Row) (s10 s20 e10 e20 : list (option Q)) (i : nat) :
  nth_error (with_indicators g s10 s20 e10 e20) i
  = match nth_error g i, nth_error s10 i, nth_error s20 i,
          nth_error e10 i, nth_error e20 i with
    | Some r, Some a, Some b, Some c, Some d =>
        Some (set_EMA_20 (set_EMA_10 (set_SMA_20 (set_SMA_10 r a) b) c) d)
    | _, _, _, _, _ => None
    end.
Proof.
  unfold with_indicators. rewrite !zip_rows_nth.
  destruct (nth_error g i), (nth_error s10 i), (nth_error s20 i),
    (nth_error e10 i), (nth_error e20 i); reflexivity.
Qed.

(** Setting the four columns again to the same series changes nothing. *)
Lemma with_indicators_idem (g : list Row) (s10 s20 e10 e20 : list (option Q)) :
  with_indicators (with_indicators g s10 s20 e10 e20) s10 s20 e10 e20
  = with_indicators g s10 s20 e10 e20.
Proof.
  apply nth_error_ext. intros i. rewrite with_indicators_nth.
  rewrite (with_indicators_nth g).
  destruct (nth_error g i), (nth_error s10 i), (nth_error s20 i),
    (nth_error e10 i), (nth_error e20 i); reflexivity.
Qed.

Lemma with_indicators_proj (B : Type) (proj : Row -> B) (g : list Row)
    (s10 s20 e10 e20 : list (option Q)) :
  (forall r v, proj (set_SMA_10 r v) = proj r) ->
  (forall r v, proj (set_SMA_20 r v) = proj r) ->
  (forall r v, proj (set_EMA_10 r v) = proj r) ->
  (forall r v, proj (set_EMA_20 r v) = proj r) ->
  length s10 = length g -> length s20 = length g ->
  length e10 = length g -> length e20 = length g ->
  map proj (with_indicators g s10 s20 e10 e20) = map proj g.
Proof.
  intros P1 P2 P3 P4 L1 L2 L3 L4. unfold with_indicators.
  set (g1 := zip_rows set_SMA_10 g s10).
  set (g2 := zip_rows set_SMA_20 g1 s20).
  set (g3 := zip_rows set_EMA_10 g2 e10).
  assert (G1 : length g1 = length g) by now apply length_zip_rows.
  assert (G2 : length g2 = length g)
    by (unfold g2; rewrite length_zip_rows; congruence).
  assert (G3 : length g3 = length g)
    by (unfold g3; rewrite length_zip_rows; congruence).
  rewrite (zip_rows_proj proj set_EMA_20 g3 e20 P4) by congruence.
  unfold g3. rewrite (zip_rows_proj proj set_EMA_10 g2 e10 P3) by congruence.
  unfold g2. rewrite (zip_rows_proj proj set_SMA_20 g1 s20 P2) by congruence.
  unfold g1. now rewrite (zip_rows_proj proj set_SMA_10 g s10 P1).
Qed.

Lemma sorted_same_dates (l l' : list Row) :
  map date l = map date l' -> StronglySorted date_le l -> StronglySorted date_le l'.
Proof.
  intros E H.
  apply (@StronglySorted_unmap _ _ _ (fun a b => date_leb a b = true) date); [auto|].
  rewrite <- E.
  apply StronglySorted_map with (R := date_le); auto.
Qed.

Lemma sorted_le_NoDup_lt (l : list Row) :
  StronglySorted date_le l -> NoDup (map date l) -> StronglySorted date_lt l.
Proof.
  induction 1 as [|a l Hl IH Ha]; simpl; intros Hnd; constructor.
  - apply IH. now inversion Hnd.
  - apply Forall_forall. intros x Hx. rewrite Forall_forall in Ha.
    apply date_leb_neq_ltb; [now apply Ha|].
    intros E. inversion Hnd as [|? ? Hnot _]. apply Hnot. rewrite E. now apply in_map.
Qed.

(** Frames with the same rows and strictly ascending dates are equal. *)
Lemma sorted_lt_perm_eq (l1 l2 : list Row) :
  StronglySorted date_lt l1 -> StronglySorted date_lt l2 ->
  Permutation l1 l2 -> l1 = l2.
Proof.
  intros H1; revert l2; induction H1 as [|a t1 Ht1 IH Ha]; intros l2 H2 Hp.
  - apply Permutation_nil in Hp. now subst.
  - destruct l2 as [|b t2].
    + apply Permutation_sym, Permutation_nil in Hp. discriminate.
    + apply StronglySorted_inv in H2. destruct H2 as [Ht2 Hb].
      rewrite Forall_forall in Ha, Hb.
      assert (E : a = b).
      { assert (Ia : In a (b :: t2)) by (apply (Permutation_in _ Hp); now left).
        assert (Ib : In b (a :: t1))
          by (apply (Permutation_in _ (Permutation_sym Hp)); now left).
        destruct Ia as [Ia|Ia]; [now subst|].
        destruct Ib as [Ib|Ib]; [assumption|].
        exfalso. apply (@date_ltb_asym (date a) (date b)); [apply Ha | apply Hb]; auto. }
      subst b. f_equal. apply IH; [assumption|].
      eapply Permutation_cons_inv, Hp.
Qed.

(** With distinct dates the sorted frame does not depend on the order of
    the rows. *)
Lemma sort_index_perm_eq (f f' : list Row) :
  Permutation f f' -> NoDup (map date f) -> sort_index f = sort_index f'.
Proof.
  intros Hp Hnd.
  assert (P1 : Permutation (sort_index f) (sort_index f')).
  { rewrite sort_index_perm, Hp. symmetry. apply sort_index_perm. }
  apply sorted_lt_perm_eq; [| |exact P1].
  - apply sorted_le_NoDup_lt; [apply sort_index_sorted|].
    eapply Permutation_NoDup; [|exact Hnd].
    apply Permutation_map, Permutation_sym, sort_index_perm.
  - apply sorted_le_NoDup_lt; [apply sort_index_sorted|].
    eapply Permutation_NoDup; [|exact Hnd].
    apply Permutation_map. rewrite Hp. apply Permutation_sym, sort_index_perm.
Qed.

(** C9. Run on a frame [f] whose index is in ascending order,
    [add_technical_indicators] leaves every object of the store as it was,
    [f] included, and returns a new object: a frame with the rows of [f]
    in the same order, every field of [f] unchanged, and the four columns
    SMA_10, SMA_20, EMA_10 and EMA_20 set to the averages of the close
    column. *)
Theorem add_technical_indicators_frame (st : list (list Row)) (df : nat) (f : list Row) :
  nth_error st df = Some f ->
  StronglySorted date_le f ->
  exists df' st' out s10 s20 e10 e20,
    add_technical_indicators df st = Ok (df', st') /\
    (forall a g, nth_error st a = Some g -> nth_error st' a = Some g) /\
    df' <> df /\
    nth_error st' df' = Some out /\
    length out = length f /\
    calculate_sma (map close f) 10 = Ok s10 /\
    calculate_sma (map close f) 20 = Ok s20 /\
    calculate_ema (map close f) 10 = Ok e10 /\
    calculate_ema (map close f) 20 = Ok e20 /\
    forall i r, nth_error f i = Some r ->
      exists r' a b c d,
        nth_error out i = Some r' /\
        date r' = date r /\ ticker r' = ticker r /\
        open r' = open r /\ high r' = high r /\ low r' = low r /\
        close r' = close r /\ adjclose r' = adjclose r /\ volume r' = volume r /\
        nth_error s10 i = Some a /\ SMA_10 r' = Some a /\
        nth_error s20 i = Some b /\ SMA_20 r' = Some b /\
        nth_error e10 i = Some c /\ EMA_10 r' = Some c /\
        nth_error e20 i = Some d /\ EMA_20 r' = Some d.
Proof.
  intros Hdf Hsorted.
  destruct (add_technical_indicators_run _ _ Hdf)
    as (s10 & s20 & e10 & e20 & H10 & H20 & E10 & E20 & L10 & L20 & M10 & M20 & Hrun).
  rewrite (sort_index_id Hsorted) in *.
  assert (Hlt : (df < length st)%nat) by (apply nth_error_Some; congruence).
  exists (length (st ++ [f])), ((st ++ [f]) ++ [with_indicators f s10 s20 e10 e20]),
    (with_indicators f s10 s20 e10 e20), s10, s20, e10, e20.
  split; [exact Hrun|]. split.
  { intros a g Ha. rewrite <- app_assoc. rewrite nth_error_app1; [assumption|].
    apply nth_error_Some. congruence. }
  split; [rewrite length_app; simpl; lia|].
  split; [apply nth_error_last|].
  split.
  { rewrite <- (length_map date), with_indicators_proj, length_map; auto. }
  repeat (split; [assumption|]).
  intros i r Hr.
  assert (Hi : (i < length f)%nat) by (apply nth_error_Some; congruence).
  destruct (nth_error s10 i) as [a|] eqn:Ea; [|apply nth_error_None in Ea; lia].
  destruct (nth_error s20 i) as [b|] eqn:Eb; [|apply nth_error_None in Eb; lia].
  destruct (nth_error e10 i) as [c|] eqn:Ec; [|apply nth_error_None in Ec; lia].
  destruct (nth_error e20 i) as [d|] eqn:Ed; [|apply nth_error_None in Ed; lia].
  exists (set_EMA_20 (set_EMA_10 (set_SMA_20 (set_SMA_10 r a) b) c) d), a, b, c, d.
  rewrite with_indicators_nth, Hr, Ea, Eb, Ec, Ed.
  repeat split; reflexivity.
Qed.

(** C7. Run on the frame it has returned, [add_technical_indicators]
    returns a frame equal to it, so with the same four indicator columns;
    and run on two frames that hold the same rows, of distinct dates, in
    different orders, it returns equal frames. *)
Theorem add_technical_indicators_idempotent (st st' : list (list Row)) (df df' : nat)
    (f f' : list Row) :
  nth_error st df = Some f ->
  nth_error st' df' = Some f' ->
  Permutation f f' ->
  NoDup (map date f) ->
  exists a1 st1 out,
    add_technical_indicators df st = Ok (a1, st1) /\
    nth_error st1 a1 = Some out /\
    (exists a2 st2,
       add_technical_indicators a1 st1 = Ok (a2, st2) /\
       nth_error st2 a2 = Some out) /\
    (exists b1 st1',
       add_technical_indicators df' st' = Ok (b1, st1') /\
       nth_error st1' b1 = Some out).
Proof.
  intros Hdf Hdf' Hp Hnd.
  destruct (add_technical_indicators_run _ _ Hdf)
    as (s10 & s20 & e10 & e20 & H10 & H20 & E10 & E20 & L10 & L20 & M10 & M20 & Hrun).
  set (g := sort_index f) in *.
  assert (Hg : length g = length f) by apply Permutation_length, sort_index_perm.
  set (out := with_indicators g s10 s20 e10 e20) in *.
  exists (length (st ++ [f])), ((st ++ [f]) ++ [out]), out.
  split; [exact Hrun|]. split; [apply nth_error_last|]. split.
  - destruct (@add_technical_indicators_run ((st ++ [f]) ++ [out]) (length (st ++ [f])) out)
      as (s10' & s20' & e10' & e20' & H10' & H20' & E10' & E20' & _ & _ & _ & _ & Hrun');
      [apply nth_error_last|].
    assert (Hout : sort_index out = out).
    { apply sort_index_id. apply (@sorted_same_dates g); [|apply sort_index_sorted].
      symmetry. apply with_indicators_proj; auto; congruence. }
    assert (Hclose : map close out = map close g).
    { apply with_indicators_proj; auto; congruence. }
    rewrite Hout, Hclose in *.
    assert (s10' = s10) by congruence. assert (s20' = s20) by congruence.
    assert (e10' = e10) by congruence. assert (e20' = e20) by congruence.
    subst s10' s20' e10' e20'.
    assert (Hidem : with_indicators out s10 s20 e10 e20 = out)
      by (unfold out; apply with_indicators_idem).
    rewrite Hidem in Hrun'.
    eexists _, _. split; [exact Hrun'|]. apply nth_error_last.
  - destruct (add_technical_indicators_run _ _ Hdf')
      as (s10' & s20' & e10' & e20' & H10' & H20' & E10' & E20' & _ & _ & _ & _ & Hrun').
    rewrite <- (sort_index_perm_eq Hp Hnd) in *. fold g in H10', H20', E10', E20', Hrun'.
    assert (s10' = s10) by congruence. assert (s20' = s20) by congruence.
    assert (e10' = e10) by congruence. assert (e20' = e20) by congruence.
    subst s10' s20' e10' e20'. fold out in Hrun'.
    eexists _, _. split; [exact Hrun'|]. apply nth_error_last.
Qed.

Lemma add_technical_indicators_frame_witness :
  exists df' st' out,
    add_technical_indicators 0 [monthly_sample] = Ok (df', st') /\
    nth_error st' 0 = Some monthly_sample /\
    nth_error st' df' = Some out /\
    length out = 3%nat.
Proof.
  destruct (@add_technical_indicators_frame [monthly_sample] 0%nat monthly_sample)
    as (df' & st' & out & s10 & s20 & e10 & e20 & Hrun & Hkeep & _ & Hout & Hlen & _).
  - reflexivity.
  - repeat constructor.
  - exists df', st', out. split; [exact Hrun|]. split; [now apply Hkeep|].
    split; [exact Hout | exact Hlen].
Defined.

Lemma add_technical_indicators_idempotent_witness :
  exists a1 st1 out,
    add_technical_indicators 0 [monthly_sample] = Ok (a1, st1) /\
    nth_error st1 a1 = Some out /\
    (exists a2 st2,
       add_technical_indicators a1 st1 = Ok (a2, st2) /\
       nth_error st2 a2 = Some out) /\
    (exists b1 st1',
       add_technical_indicators 0 [monthly_shuffled] = Ok (b1, st1') /\
       nth_error st1' b1 = Some out).
Proof.
  apply (@add_technical_indicators_idempotent
           [monthly_sample] [monthly_shuffled] 0%nat 0%nat monthly_sample monthly_shuffled).
  - reflexivity.
  - reflexivity.
  - apply perm_swap.
  - repeat constructor; simpl; intuition discriminate.
Defined.

(** * Further properties of the averages *)

(** ** Values computed from a prefix *)

Lemma slice_app_prefix (A : Type) (l1 l2 : list A) (a e : nat) :
  (e <= length l1)%nat -> slice (l1 ++ l2) a e = slice l1 a e.
Proof.
  intros H. unfold slice. rewrite skipn_app, firstn_app, length_skipn.
  replace (e - a - (length l1 - a))%nat with 0%nat by lia.
  rewrite firstn_O. apply app_nil_r.
Qed.

Lemma firstn_map_seq_app (A : Type) (f : nat -> A) (n m : nat) :
  firstn n (map f (seq 0 (n + m))) = map f (seq 0 n).
Proof.
  rewrite seq_app, map_app, firstn_app, length_map, length_seq, Nat.sub_diag.
  rewrite firstn_O, app_nil_r. apply firstn_all2.
  now rewrite length_map, length_seq.
Qed.

Lemma rolling_mean_prefix (series extra : list (option Q)) (W : Z) :
  firstn (length series)
         (map (fun i => window_mean 1 (slice (series ++ extra) (window_start W i) (S i)))
              (seq 0 (length (series ++ extra))))
  = map (fun i => window_mean 1 (slice series (window_start W i) (S i)))
        (seq 0 (length series)).
Proof.
  rewrite length_app, firstn_map_seq_app. apply map_ext_in.
  intros i Hi. apply in_seq in Hi. rewrite slice_app_prefix by lia. reflexivity.
Qed.

Lemma nth_firstn_lt (A : Type) (l : list A) (n i : nat) (d : A) :
  (i < n)%nat -> nth i (firstn n l) d = nth i l d.
Proof.
  revert l i; induction n as [|n IH]; intros [|a l] [|i] H; simpl; auto; try lia.
  apply IH. lia.
Qed.

Lemma nth_error_firstn_lt (A : Type) (l : list A) (n i : nat) :
  (i < n)%nat -> nth_error (firstn n l) i = nth_error l i.
Proof.
  revert l i; induction n as [|n IH]; intros [|a l] [|i] H; simpl; auto; try lia.
  apply IH. lia.
Qed.

Lemma ema_prefix_values (series extra sma sma' out out' : list (option Q))
    (W : Z) (alpha : Q) :
  (0 < W)%Z ->
  firstn (length series) sma' = sma ->
  (forall i, (i < length series)%nat ->
     nth_error out i = Some (ema_value series sma W alpha out i)) ->
  (forall i, (i < length series)%nat ->
     nth_error out' i = Some (ema_value (series ++ extra) sma' W alpha out' i)) ->
  forall k i, (i < k)%nat -> (i < length series)%nat ->
    nth_error out' i = nth_error out i.
Proof.
  intros HW Hsma Hout Hout'. induction k as [|k IH]; intros i Hik Hi; [lia|].
  rewrite (Hout i Hi), (Hout' i Hi). f_equal. unfold ema_value.
  destruct (Z.ltb_spec (Z.of_nat i) (W - 1)); [now apply app_nth1|].
  destruct (Z.eqb_spec (Z.of_nat i) (W - 1)).
  - rewrite <- Hsma. symmetry. now apply nth_firstn_lt.
  - assert (E : nth (i - 1) out' None = nth (i - 1) out None).
    { assert (Hp : nth_error out' (i - 1) = nth_error out (i - 1))
        by (apply IH; lia).
      destruct (nth_error out (i - 1)) as [v|] eqn:Ev.
      - rewrite (nth_error_nth _ _ None Hp), (nth_error_nth _ _ None Ev). reflexivity.
      - rewrite (Hout (i - 1)%nat) in Ev by lia. discriminate. }
    rewrite E, app_nth1 by assumption. reflexivity.
Qed.

Lemma firstn_ext_nth_error (A : Type) (l l' : list A) :
  (length l <= length l')%nat ->
  (forall i, (i < length l)%nat -> nth_error l' i = nth_error l i) ->
  firstn (length l) l' = l.
Proof.
  intros Hlen H. apply nth_error_ext. intros i.
  destruct (Nat.lt_ge_cases i (length l)) as [Hi|Hi].
  - rewrite nth_error_firstn_lt by assumption. now apply H.
  - transitivity (@None A); [|symmetry]; apply nth_error_None;
      [rewrite length_firstn|]; lia.
Qed.

(** X1. Later prices do not change earlier values of the simple moving
    average: the average of a series extended by further cells starts with
    the average of the series. *)
Theorem calculate_sma_prefix (W : Z) (series extra : list (option Q)) :
  (0 < W)%Z ->
  exists out out',
    calculate_sma series W = Ok out /\
    calculate_sma (series ++ extra) W = Ok out' /\
    firstn (length series) out' = out.
Proof.
  intros HW. unfold calculate_sma. rewrite !(rolling_mean_Ok _ HW).
  eexists _, _. split; [reflexivity|]. split; [reflexivity|].
  apply rolling_mean_prefix.
Qed.

Lemma calculate_sma_prefix_witness :
  exists out out',
    calculate_sma [Some 1; None]%Q 3 = Ok out /\
    calculate_sma ([Some 1; None] ++ [Some 4])%Q 3 = Ok out' /\
    firstn 2 out' = out.
Proof.
  apply (@calculate_sma_prefix 3 [Some 1; None]%Q [Some 4]%Q). lia.
Defined.

(** X2. Later prices do not change earlier values of the exponential
    moving average either. *)
Theorem calculate_ema_prefix (W : Z) (series extra : list (option Q)) :
  (0 < W)%Z ->
  exists out out',
    calculate_ema series W = Ok out /\
    calculate_ema (series ++ extra) W = Ok out' /\
    firstn (length series) out' = out.
Proof.
  intros HW.
  destruct (calculate_ema_Ok series HW) as (sma & out & Hsma & _ & Hrun & Hlen & Hval).
  destruct (calculate_ema_Ok (series ++ extra) HW)
    as (sma' & out' & Hsma' & _ & Hrun' & Hlen' & Hval').
  exists out, out'. split; [exact Hrun|]. split; [exact Hrun'|].
  rewrite (rolling_mean_Ok series HW) in Hsma.
  rewrite (rolling_mean_Ok (series ++ extra) HW) in Hsma'.
  injection Hsma as Hsma. injection Hsma' as Hsma'.
  assert (Hpre : firstn (length series) sma' = sma).
  { rewrite <- Hsma, <- Hsma'. apply rolling_mean_prefix. }
  rewrite length_app in Hlen', Hval'.
  rewrite <- Hlen. apply firstn_ext_nth_error; [lia|].
  rewrite Hlen. intros i Hi.
  apply (@ema_prefix_values series extra sma sma' out out' W (2 / (inject_Z W + 1))%Q)
    with (k := S i); auto.
  intros j Hj. apply Hval'. lia.
Qed.

Lemma calculate_ema_prefix_witness :
  exists out out',
    calculate_ema [Some 1; Some 2; Some 6]%Q 2 = Ok out /\
    calculate_ema ([Some 1; Some 2; Some 6] ++ [Some 4])%Q 2 = Ok out' /\
    firstn 3 out' = out.
Proof.
  apply (@calculate_ema_prefix 2 [Some 1; Some 2; Some 6]%Q [Some 4]%Q). lia.
Defined.

(** ** Missing values in the recurrence *)

Lemma ema_value_nan_step (series sma out : list (option Q)) (W : Z) (alpha : Q) (j : nat) :
  (W - 1 < Z.of_nat j)%Z -> nth (j - 1) out None = None ->
  ema_value series sma W alpha out j = None.
Proof.
  intros Hj Hp. unfold ema_value.
  destruct (Z.ltb_spec (Z.of_nat j) (W - 1)); [lia|].
  destruct (Z.eqb_spec (Z.of_nat j) (W - 1)); [lia|].
  rewrite Hp. destruct (nth j series None); reflexivity.
Qed.

(** X5. A missing value of the exponential moving average at or after the
    seed is never recovered from: every later value is missing too. *)
Theorem calculate_ema_nan_persists (W : Z) (series out : list (option Q)) (i : nat) :
  (0 < W)%Z ->
  calculate_ema series W = Ok out ->
  (W - 1 <= Z.of_nat i)%Z ->
  nth_error out i = Some None ->
  forall j, (i <= j < length series)%nat -> nth_error out j = Some None.
Proof.
  intros HW Hrun Hi Hnan.
  destruct (calculate_ema_Ok series HW) as (sma & out0 & _ & _ & Hrun0 & Hlen & Hval).
  assert (out0 = out) by congruence. subst out0.
  intros j [Hij Hj]. induction j as [|j IH].
  - replace i with 0%nat in Hnan by lia. exact Hnan.
  - destruct (Nat.eq_dec i (S j)) as [<-|Hne]; [exact Hnan|].
    rewrite (Hval (S j) Hj). f_equal. apply ema_value_nan_step; [lia|].
    replace (S j - 1)%nat with j by lia.
    apply nth_error_nth. apply IH; lia.
Qed.

Lemma calculate_ema_nan_persists_witness :
  exists out,
    calculate_ema [Some 1; Some 2; None; Some 4]%Q 2 = Ok out /\
    nth_error out 3 = Some None.
Proof.
  eexists. split; [vm_compute; reflexivity|].
  apply (@calculate_ema_nan_persists 2 [Some 1; Some 2; None; Some 4]%Q _ 2%nat);
    [lia | vm_compute; reflexivity | simpl; lia | reflexivity | simpl; lia].
Defined.

(** * Further properties of the aggregation *)

(** ** Candidate rows of daily records, in any order *)

Lemma to_row_inj (d d' : DailyRecord) : to_row d = to_row d' -> d = d'.
Proof.
  destruct d, d'. unfold to_row. simpl. intros H. injection H. intros. now subst.
Qed.

Lemma rows_of_records (l : list Row) :
  (forall r, In r l -> exists d, r = to_row d) -> exists g, l = map to_row g.
Proof.
  induction l as [|r l IH]; intros H.
  - now exists [].
  - destruct (H r (or_introl eq_refl)) as (d & ->).
    destruct IH as (g & ->); [intros x Hx; apply H; now right|].
    now exists (d :: g).
Qed.

Lemma candidate_of_records (S0 : list DailyRecord) (c : Row) :
  In c (monthly_candidates (map to_row S0)) ->
  exists t k g,
    c = agg_bin t k (map to_row g) /\
    forall d, In d g <-> In d (month_group S0 t k).
Proof.
  intros Hc. destruct (monthly_candidates_inv _ _ Hc) as (t & k & _ & ->).
  set (bin := filter _ (sort_index _)).
  assert (Hbin : forall r, In r bin <-> In r (map to_row (month_group S0 t k))).
  { intros r. rewrite <- bin_of_records. unfold bin.
    rewrite !filter_In, sort_index_In, filter_In. tauto. }
  destruct (@rows_of_records bin) as (g & Eg).
  { intros r Hr. apply Hbin, in_map_iff in Hr. destruct Hr as (d & <- & _). eauto. }
  exists t, k, g. split; [now rewrite Eg|].
  intros d. split; intros Hd.
  - assert (H : In (to_row d) bin) by (rewrite Eg; now apply in_map).
    apply Hbin, in_map_iff in H. destruct H as (d' & E & Hd').
    apply to_row_inj in E. now subst.
  - assert (H : In (to_row d) bin) by (apply Hbin; now apply in_map).
    rewrite Eg in H. apply in_map_iff in H. destruct H as (d' & E & Hd').
    apply to_row_inj in E. now subst.
Qed.

Lemma aggregate_monthly_ohlc_sorted (df : list Row) :
  StronglySorted (fun a b => ticker a = ticker b -> date_lt a b)
                 (aggregate_monthly_ohlc df).
Proof.
  rewrite aggregate_monthly_ohlc_blocks.
  apply sorted_flat_map; [apply group_keys_NoDup | |].
  - intros t r Hr. apply filter_In in Hr. destruct Hr as [Hr _].
    eapply resample_ME_agg_ticker, Hr.
  - intros t. apply StronglySorted_filter, resample_ME_agg_sorted.
Qed.

Lemma date_ltb_irrefl (a : Date) : date_ltb a a = false.
Proof.
  destruct (date_ltb a a) eqn:E; [|reflexivity].
  exfalso. exact (date_ltb_asym _ _ E E).
Qed.

Lemma aggregate_row_of_record (S0 : list DailyRecord) (d : DailyRecord) :
  In d S0 ->
  exists o, In o (aggregate_monthly_ohlc (map to_row S0)) /\
            ticker o = d_ticker d /\ date o = month_end (ym (d_date d)).
Proof.
  intros Hd.
  destruct (@monthly_candidates_cover (map to_row S0) (to_row d) (to_row d) (ym (d_date d)))
    as (c & Hc & Et & Ed); auto using in_map; [simpl; lia|].
  exists c. split; [|auto].
  apply filter_In. split; [exact Hc|].
  destruct (candidate_of_records _ _ Hc) as (t & k & g & -> & Hg).
  rewrite has_ohlc_records. cbn [ticker date agg_bin] in Et, Ed.
  assert (Hk : k = ym (d_date d)) by (apply (f_equal ym) in Ed; exact Ed).
  assert (Hin : In d g).
  { apply Hg. unfold month_group. apply filter_In. split; [exact Hd|].
    cbn [to_row ticker] in Et. rewrite Et, Hk, String.eqb_refl, Z.eqb_refl. reflexivity. }
  destruct g; [contradiction | reflexivity].
Qed.

(** X6. There is one monthly row for each instrument and month with a
    daily record, and no other: every daily record has a row of its
    instrument dated at the end of its month, no two rows have the same
    instrument and date, and every row has a daily record of its
    instrument in its month.  The order of the daily records does not
    matter. *)
Theorem aggregate_one_row_per_month (S0 : list DailyRecord) :
  (forall d, In d S0 ->
     exists o, In o (aggregate_monthly_ohlc (map to_row S0)) /\
               ticker o = d_ticker d /\ date o = month_end (ym (d_date d))) /\
  NoDup (map (fun o => (ticker o, date o)) (aggregate_monthly_ohlc (map to_row S0))) /\
  (forall o, In o (aggregate_monthly_ohlc (map to_row S0)) ->
     exists d, In d S0 /\ d_ticker d = ticker o /\ month_end (ym (d_date d)) = date o).
Proof.
  split; [|split].
  - apply aggregate_row_of_record.
  - pose proof (aggregate_monthly_ohlc_sorted (map to_row S0)) as Hs.
    induction Hs as [|a l Hl IH Ha]; simpl; constructor; [|exact IH].
    intros Hin. apply in_map_iff in Hin. destruct Hin as (x & E & Hx).
    injection E as Et Ed. rewrite Forall_forall in Ha.
    specialize (Ha x Hx (eq_sym Et)). unfold date_lt in Ha.
    rewrite Ed, date_ltb_irrefl in Ha. discriminate.
  - intros o Ho. apply filter_In in Ho. destruct Ho as [Hc Hoh].
    destruct (candidate_of_records _ _ Hc) as (t & k & g & -> & Hg).
    rewrite has_ohlc_records in Hoh. destruct g as [|d g]; [discriminate|].
    assert (Hd : In d (month_group S0 t k)) by (apply Hg; now left).
    apply filter_In in Hd. destruct Hd as [Hd E]. apply andb_true_iff in E.
    destruct E as [Et Ek]. apply String.eqb_eq in Et. apply Z.eqb_eq in Ek.
    exists d. cbn [ticker date agg_bin]. rewrite Ek. auto.
Qed.

(** ** Volume *)

Lemma total_volume_cons (r : Row) (l : list Row) :
  total_volume (r :: l) = (row_volume r + total_volume l)%Z.
Proof.
  unfold total_volume, row_volume. simpl. destruct (volume r); reflexivity.
Qed.

Lemma total_volume_app (l1 l2 : list Row) :
  total_volume (l1 ++ l2) = (total_volume l1 + total_volume l2)%Z.
Proof.
  induction l1 as [|r l1 IH]; [reflexivity|].
  simpl app. rewrite !total_volume_cons, IH. lia.
Qed.

Lemma total_volume_perm (l1 l2 : list Row) :
  Permutation l1 l2 -> total_volume l1 = total_volume l2.
Proof.
  induction 1; rewrite ?total_volume_cons; lia.
Qed.

Lemma total_volume_flat_map (A : Type) (F : A -> list Row) (ks : list A) :
  total_volume (flat_map F ks)
  = fold_right Z.add 0%Z (map (fun k => total_volume (F k)) ks).
Proof.
  induction ks as [|k ks IH]; [reflexivity|].
  simpl. now rewrite total_volume_app, IH.
Qed.

Lemma total_volume_map (A : Type) (F : A -> Row) (ks : list A) :
  total_volume (map F ks)
  = fold_right Z.add 0%Z (map (fun k => row_volume (F k)) ks).
Proof.
  induction ks as [|k ks IH]; [reflexivity|].
  simpl map. now rewrite total_volume_cons, IH.
Qed.

Lemma total_volume_nonneg (l : list Row) :
  (forall r, In r l -> (0 <= row_volume r)%Z) -> (0 <= total_volume l)%Z.
Proof.
  induction l as [|r l IH]; intros H; [reflexivity|].
  rewrite total_volume_cons.
  pose proof (H r (or_introl eq_refl)).
  assert (0 <= total_volume l)%Z by (apply IH; intros; apply H; now right).
  lia.
Qed.

Lemma total_volume_filter_le (p : Row -> bool) (l : list Row) :
  (forall r, In r l -> (0 <= row_volume r)%Z) ->
  (total_volume (filter p l) <= total_volume l)%Z.
Proof.
  induction l as [|r l IH]; intros H; [reflexivity|]. cbn [filter].
  pose proof (H r (or_introl eq_refl)).
  assert (total_volume (filter p l) <= total_volume l)%Z
    by (apply IH; intros; apply H; now right).
  destruct (p r); rewrite !total_volume_cons; lia.
Qed.

(** The sum of a bin with volumes that are not negative and add up to
    less than [2^63] does not wrap. *)
Lemma row_volume_agg_bin (t : string) (k : Z) (bin : list Row) :
  (forall r, In r bin -> (0 <= row_volume r)%Z) ->
  (total_volume bin < 2 ^ 63)%Z ->
  row_volume (agg_bin t k bin) = total_volume bin.
Proof.
  intros Hpos Hlt. pose proof (total_volume_nonneg bin Hpos) as H0.
  unfold row_volume, agg_bin. cbn [volume]. rewrite agg_sum_cells.
  fold (total_volume bin). apply int64_small. lia.
Qed.

Section Partition.

Variables (K : Type) (key : Row -> K) (keq : K -> K -> bool).
Hypothesis keq_spec : forall a b, keq a b = true <-> a = b.

Lemma indicator_sum (a : K) (v : Z) (ks : list K) :
  NoDup ks -> In a ks ->
  fold_right Z.add 0%Z (map (fun k => if keq a k then v else 0%Z) ks) = v.
Proof.
  induction 1 as [|k ks Hk Hnd IH]; intros Hin; [contradiction|]. simpl.
  destruct (keq a k) eqn:E.
  - apply keq_spec in E. subst k.
    assert (Z0 : fold_right Z.add 0%Z (map (fun k => if keq a k then v else 0%Z) ks) = 0%Z).
    { clear IH Hin Hnd. induction ks as [|k ks IH]; [reflexivity|]. simpl.
      destruct (keq a k) eqn:E.
      - apply keq_spec in E. subst k. exfalso. apply Hk. now left.
      - rewrite IH; [reflexivity|]. intros H. apply Hk. now right. }
    lia.
  - destruct Hin as [->|Hin].
    + assert (keq a a = true) by now apply keq_spec. congruence.
    + rewrite IH by assumption. lia.
Qed.

(** Splitting a frame by a key loses and repeats no volume. *)
Lemma total_volume_partition (ks : list K) (l : list Row) :
  NoDup ks -> (forall r, In r l -> In (key r) ks) ->
  fold_right Z.add 0%Z
    (map (fun k => total_volume (filter (fun r => keq (key r) k) l)) ks)
  = total_volume l.
Proof.
  intros Hnd. induction l as [|r l IH]; intros Hin.
  - clear Hnd Hin. induction ks as [|k ks IHk]; [reflexivity|].
    cbn [map fold_right]. rewrite IHk. reflexivity.
  - rewrite total_volume_cons, <- IH by (intros; apply Hin; now right).
    rewrite <- (@indicator_sum (key r) (row_volume r) ks Hnd) at 1
      by (apply Hin; now left).
    clear IH Hin Hnd. induction ks as [|k ks IHk]; [reflexivity|].
    cbn [map fold_right]. rewrite IHk. cbn [filter].
    destruct (keq (key r) k); rewrite ?total_volume_cons; lia.
Qed.

End Partition.

Lemma StronglySorted_lt_NoDup (l : list Z) : StronglySorted Z.lt l -> NoDup l.
Proof.
  induction 1 as [|a l Hl IH Ha]; constructor; [|exact IH].
  intros Hin. rewrite Forall_forall in Ha. specialize (Ha a Hin). lia.
Qed.

Lemma total_volume_resample (t : string) (g : list Row) :
  (forall r, In r g -> (0 <= row_volume r)%Z) ->
  (total_volume g < 2 ^ 63)%Z ->
  total_volume (resample_ME_agg t g) = total_volume g.
Proof.
  intros Hpos Hlt. unfold resample_ME_agg.
  pose proof (sort_index_sorted g) as Hsorted.
  pose proof (sort_index_perm g) as Hperm.
  destruct (sort_index g) as [|first rest] eqn:Es.
  - apply Permutation_nil in Hperm. now subst.
  - assert (Hpos' : forall r, In r (first :: rest) -> (0 <= row_volume r)%Z).
    { intros r Hr. apply Hpos. exact (Permutation_in _ Hperm Hr). }
    rewrite total_volume_map.
    rewrite <- (total_volume_perm Hperm) in *.
    erewrite map_ext.
    2:{ intros k. apply row_volume_agg_bin.
        - intros r Hr. apply filter_In in Hr. now apply Hpos'.
        - pose proof (total_volume_filter_le
                        (fun r => (ym (date r) =? k)%Z) (first :: rest) Hpos').
          lia. }
    apply (@total_volume_partition Z (fun r => ym (date r)) Z.eqb Z.eqb_eq).
    + apply StronglySorted_lt_NoDup, month_range_sorted.
    + intros r Hr. apply month_range_In. split; apply date_leb_ym.
      * apply (StronglySorted_head_least (R := date_le) (l := rest)); auto.
        intros y. apply date_leb_refl.
      * apply (StronglySorted_last_greatest (R := date_le)); auto.
        intros y. apply date_leb_refl.
Qed.

(** The candidate rows carry the volume of the frame. *)
Lemma total_volume_candidates (df : list Row) :
  (forall r, In r df -> (0 <= row_volume r)%Z) ->
  (total_volume df < 2 ^ 63)%Z ->
  total_volume (monthly_candidates df) = total_volume df.
Proof.
  intros Hpos Hlt. unfold monthly_candidates. rewrite total_volume_flat_map.
  erewrite map_ext.
  2:{ intros t. apply total_volume_resample.
      - intros r Hr. apply filter_In in Hr. now apply Hpos.
      - pose proof (total_volume_filter_le
                      (fun r => String.eqb (ticker r) t) df Hpos).
        lia. }
  apply (@total_volume_partition string ticker String.eqb String.eqb_eq).
  - apply group_keys_NoDup.
  - intros r Hr. apply group_keys_In. eauto.
Qed.

Lemma total_volume_filter (p : Row -> bool) (l : list Row) :
  (forall r, In r l -> p r = false -> row_volume r = 0%Z) ->
  total_volume (filter p l) = total_volume l.
Proof.
  induction l as [|r l IH]; intros H; [reflexivity|]. simpl filter.
  assert (Hl : total_volume (filter p l) = total_volume l)
    by (apply IH; intros; apply H; auto; now right).
  destruct (p r) eqn:E; rewrite !total_volume_cons, ?Hl; [reflexivity|].
  rewrite (H r (or_introl eq_refl) E). lia.
Qed.

(** X7. Aggregation keeps the volume as long as no [int64] sum wraps:
    for daily records, in any order, whose volumes are not negative and
    add up to less than [2^63], the volumes of the monthly rows add up to
    the volumes of the daily records; the rows that [dropna] removes
    carry none. *)
Theorem aggregate_keeps_total_volume (S0 : list DailyRecord) :
  (forall d, In d S0 -> (0 <= d_volume d)%Z) ->
  (fold_right Z.add 0%Z (map d_volume S0) < 2 ^ 63)%Z ->
  total_volume (aggregate_monthly_ohlc (map to_row S0))
  = fold_right Z.add 0%Z (map d_volume S0).
Proof.
  intros Hpos Hlt.
  assert (Etotal : total_volume (map to_row S0) = fold_right Z.add 0%Z (map d_volume S0)).
  { unfold total_volume. rewrite map_map. cbn [to_row volume].
    now rewrite dropna_cells_map_Some. }
  unfold aggregate_monthly_ohlc, dropna_ohlc.
  rewrite total_volume_filter, total_volume_candidates.
  - exact Etotal.
  - intros r Hr. apply in_map_iff in Hr. destruct Hr as (d & <- & Hd).
    now apply Hpos.
  - now rewrite Etotal.
  - intros c Hc Hoh.
    destruct (candidate_of_records _ _ Hc) as (t & k & g & -> & _).
    rewrite has_ohlc_records in Hoh. destruct g; [reflexivity | discriminate].
Qed.

Lemma aggregate_keeps_total_volume_witness :
  total_volume (aggregate_monthly_ohlc (map to_row gap_records))
  = fold_right Z.add 0%Z (map d_volume gap_records).
Proof.
  apply aggregate_keeps_total_volume.
  - intros d Hd. vm_compute in Hd.
    repeat (destruct Hd as [<-|Hd]; [vm_compute; discriminate|]). contradiction.
  - vm_compute. reflexivity.
Defined.

(** ** Prices *)

(** X8. Aggregation keeps the order of the prices: when in every daily
    record the open and the close lie between the low and the high, so
    they do in every monthly row. *)
Theorem aggregate_keeps_price_order (S0 : list DailyRecord) (o : Row) :
  (forall d, In d S0 ->
     (d_low d <= d_open d <= d_high d)%Q /\ (d_low d <= d_close d <= d_high d)%Q) ->
  In o (aggregate_monthly_ohlc (map to_row S0)) ->
  exists op hi lo cl,
    open o = Some op /\ high o = Some hi /\ low o = Some lo /\ close o = Some cl /\
    (lo <= op <= hi)%Q /\ (lo <= cl <= hi)%Q.
Proof.
  intros Hrec Ho. apply filter_In in Ho. destruct Ho as [Hc Hoh].
  destruct (candidate_of_records _ _ Hc) as (t & k & g & -> & Hg).
  rewrite has_ohlc_records in Hoh. destruct g as [|f g]; [discriminate|].
  assert (Hin : forall d, In d (f :: g) -> In d S0).
  { intros d Hd. apply Hg in Hd. unfold month_group in Hd.
    now apply filter_In in Hd. }
  unfold agg_bin. cbn [open high low close]. rewrite !map_map.
  cbn [to_row open high low close].
  destruct (@agg_max_numbers _ d_high (f :: g)) as (hi & Ehi & _ & Hhi); [discriminate|].
  destruct (@agg_min_numbers _ d_low (f :: g)) as (lo & Elo & _ & Hlo); [discriminate|].
  set (l := last (f :: g) f).
  assert (Hl : In l (f :: g)) by (apply last_In; discriminate).
  exists (d_open f), hi, lo, (d_close l).
  split; [reflexivity|]. split; [exact Ehi|]. split; [exact Elo|].
  split; [apply (@agg_last_last _ _ d_close); discriminate|].
  assert (Hf : In f (f :: g)) by now left.
  destruct (Hrec f (Hin f Hf)) as [[F1 F2] _].
  destruct (Hrec l (Hin l Hl)) as [_ [L1 L2]].
  pose proof (Hhi _ (in_map d_high _ _ Hf)). pose proof (Hlo _ (in_map d_low _ _ Hf)).
  pose proof (Hhi _ (in_map d_high _ _ Hl)). pose proof (Hlo _ (in_map d_low _ _ Hl)).
  split; split; lra.
Qed.

Lemma aggregate_keeps_price_order_witness :
  exists op hi lo cl,
    open january_row = Some op /\ high january_row = Some hi /\
    low january_row = Some lo /\ close january_row = Some cl /\
    (lo <= op <= hi)%Q /\ (lo <= cl <= hi)%Q.
Proof.
  apply (@aggregate_keeps_price_order january_records january_row).
  - intros d Hd. unfold january_records in Hd. apply in_map_iff in Hd.
    destruct Hd as (i & <- & Hi). apply in_seq in Hi. unfold daily.
    cbn [d_low d_open d_high d_close]. rewrite <- !Zle_Qle. lia.
  - vm_compute. left. reflexivity.
Defined.

(** * The frame of one ticker *)

Lemma df_getitem_ticker_eq_run (st : list (list Row)) (df : nat) (f : list Row) (t : string) :
  nth_error st df = Some f ->
  df_getitem_ticker_eq df t st
  = Ok (length st, st ++ [filter (fun r => String.eqb (ticker r) t) f]).
Proof.
  intros H. unfold df_getitem_ticker_eq, bindM, load, alloc. now rewrite H.
Qed.

Lemma get_monthly_data_by_ticker_run (st : list (list Row)) (df : nat) (f : list Row)
    (t : string) :
  nth_error st df = Some f ->
  let g := filter (fun r => String.eqb (ticker r) t) f in
  get_monthly_data_by_ticker df t st
  = Ok (length ((st ++ [g]) ++ [g]), ((st ++ [g]) ++ [g]) ++ [sort_index g]).
Proof.
  intros Hdf g. unfold get_monthly_data_by_ticker.
  run_step (@df_getitem_ticker_eq_run _ _ _ t Hdf). fold g.
  run_step (@df_copy_run (st ++ [g]) (length st) g (nth_error_last st g)).
  run_step (df_sort_index_last (st ++ [g]) g).
  reflexivity.
Qed.

Lemma nth_error_app_keep (A : Type) (l l' : list A) (i : nat) (x : A) :
  nth_error l i = Some x -> nth_error (l ++ l') i = Some x.
Proof.
  intros H. rewrite nth_error_app1; [assumption|].
  apply nth_error_Some. congruence.
Qed.

(** X9. [get_monthly_data_by_ticker] returns a new frame with exactly the
    rows of the ticker, in ascending order of date, and leaves the frame
    it is given, and every other object, as it was; for a ticker without
    rows it returns the empty frame. *)
Theorem get_monthly_data_by_ticker_frame (st : list (list Row)) (df : nat)
    (f : list Row) (t : string) :
  nth_error st df = Some f ->
  exists a st' out,
    get_monthly_data_by_ticker df t st = Ok (a, st') /\
    (forall b g, nth_error st b = Some g -> nth_error st' b = Some g) /\
    nth_error st' a = Some out /\
    Permutation out (filter (fun r => String.eqb (ticker r) t) f) /\
    (forall r, In r out <-> In r f /\ ticker r = t) /\
    StronglySorted date_le out /\
    ((forall r, In r f -> ticker r <> t) -> out = []).
Proof.
  intros Hdf. set (g := filter (fun r => String.eqb (ticker r) t) f).
  exists (length ((st ++ [g]) ++ [g])), (((st ++ [g]) ++ [g]) ++ [sort_index g]),
    (sort_index g).
  split; [apply (@get_monthly_data_by_ticker_run st df f t Hdf)|].
  split; [intros b h Hb; now do 3 apply nth_error_app_keep|].
  split; [apply nth_error_last|].
  split; [apply sort_index_perm|].
  split.
  { intros r. rewrite sort_index_In. unfold g. rewrite filter_In, String.eqb_eq. tauto. }
  split; [apply sort_index_sorted|].
  intros Hnone. assert (Eg : g = []).
  { unfold g. destruct (filter _ f) as [|r l] eqn:E; [reflexivity|].
    assert (Hr : In r (filter (fun r => String.eqb (ticker r) t) f))
      by (rewrite E; now left).
    apply filter_In in Hr. destruct Hr as [Hr Ht]. apply String.eqb_eq in Ht.
    now apply Hnone in Hr. }
  now rewrite Eg.
Qed.

Lemma get_monthly_data_by_ticker_frame_witness :
  exists a st' out,
    get_monthly_data_by_ticker 0 "TEST" [monthly_shuffled] = Ok (a, st') /\
    nth_error st' a = Some out /\
    StronglySorted date_le out.
Proof.
  destruct (@get_monthly_data_by_ticker_frame [monthly_shuffled] 0%nat monthly_shuffled "TEST")
    as (a & st' & out & Hrun & _ & Hout & _ & _ & Hs & _); [reflexivity|].
  exists a, st', out. auto.
Defined.

Section FilterBlocks.

Variables (K : Type) (key : Row -> K) (keq : K -> K -> bool).
Hypothesis keq_spec : forall a b, keq a b = true <-> a = b.

Lemma filter_all (l : list Row) (t : K) :
  (forall r, In r l -> key r = t) -> filter (fun r => keq (key r) t) l = l.
Proof.
  intros H. apply forallb_filter_id, forallb_forall.
  intros r Hr. apply keq_spec. now apply H.
Qed.

Lemma filter_none (l : list Row) (t : K) :
  (forall r, In r l -> key r <> t) -> filter (fun r => keq (key r) t) l = [].
Proof.
  induction l as [|r l IH]; intros H; [reflexivity|]. simpl.
  destruct (keq (key r) t) eqn:E.
  - apply keq_spec in E. exfalso. apply (H r); auto. now left.
  - apply IH. intros x Hx. apply H. now right.
Qed.

(** Filtering a frame made of one block per key gives the block back. *)
Lemma filter_flat_map_block (blk : K -> list Row) (keys : list K) (t : K) :
  NoDup keys -> (forall t' r, In r (blk t') -> key r = t') -> In t keys ->
  filter (fun r => keq (key r) t) (flat_map blk keys) = blk t.
Proof.
  intros Hnd Hblk. induction Hnd as [|k keys Hk Hnd IH]; intros Hin; [contradiction|].
  simpl. rewrite filter_app. destruct Hin as [->|Hin].
  - rewrite filter_all by apply Hblk.
    rewrite filter_none; [apply app_nil_r|].
    intros r Hr E. apply in_flat_map in Hr. destruct Hr as (t' & Ht' & Hr).
    apply Hblk in Hr. congruence.
  - rewrite IH by assumption.
    rewrite filter_none; [reflexivity|].
    intros r Hr E. apply Hblk in Hr. congruence.
Qed.

End FilterBlocks.

Lemma flat_map_ext_in (A B : Type) (F G : A -> list B) (l : list A) :
  (forall x, In x l -> F x = G x) -> flat_map F l = flat_map G l.
Proof.
  induction l as [|x l IH]; intros H; [reflexivity|]. simpl.
  rewrite (H x (or_introl eq_refl)), IH; [reflexivity|].
  intros y Hy. apply H. now right.
Qed.

Lemma aggregate_monthly_ohlc_ticker_rows (d : list Row) (t : string) :
  StronglySorted date_lt
    (filter (fun r => String.eqb (ticker r) t) (aggregate_monthly_ohlc d)).
Proof.
  pose proof (aggregate_monthly_ohlc_sorted d) as Hs.
  induction Hs as [|a l Hl IH Ha]; simpl; [constructor|].
  destruct (String.eqb_spec (ticker a) t) as [E|E]; [|exact IH].
  constructor; [exact IH|].
  apply Forall_forall. intros x Hx. apply filter_In in Hx. destruct Hx as [Hx Ex].
  apply String.eqb_eq in Ex. rewrite Forall_forall in Ha. apply Ha; congruence.
Qed.

Lemma sorted_lt_le (l : list Row) : StronglySorted date_lt l -> StronglySorted date_le l.
Proof.
  induction 1 as [|a l Hl IH Ha]; constructor; [exact IH|].
  apply Forall_forall. intros x Hx. rewrite Forall_forall in Ha.
  apply date_ltb_leb. now apply Ha.
Qed.

(** X10. On the output of [aggregate_monthly_ohlc],
    [get_monthly_data_by_ticker] returns the rows of the ticker as they
    stand there, one per month in strictly ascending order; and the frames
    of the tickers of the input, one after the other, make up the whole
    output: no row is lost, repeated or moved. *)
Theorem get_monthly_data_by_ticker_partition (st : list (list Row)) (df : nat)
    (d : list Row) :
  nth_error st df = Some (aggregate_monthly_ohlc d) ->
  (forall t, exists a st',
     get_monthly_data_by_ticker df t st = Ok (a, st') /\
     nth_error st' a
     = Some (filter (fun r => String.eqb (ticker r) t) (aggregate_monthly_ohlc d)) /\
     StronglySorted date_lt
       (filter (fun r => String.eqb (ticker r) t) (aggregate_monthly_ohlc d))) /\
  flat_map (fun t => filter (fun r => String.eqb (ticker r) t) (aggregate_monthly_ohlc d))
           (group_keys d)
  = aggregate_monthly_ohlc d.
Proof.
  intros Hdf. split.
  - intros t. pose proof (aggregate_monthly_ohlc_ticker_rows d t) as Hs.
    eexists _, _. split; [apply (@get_monthly_data_by_ticker_run st df _ t Hdf)|].
    split; [|exact Hs].
    rewrite nth_error_last, (sort_index_id (sorted_lt_le Hs)). reflexivity.
  - etransitivity; [|symmetry; apply aggregate_monthly_ohlc_blocks].
    apply flat_map_ext_in. intros t Ht.
    rewrite aggregate_monthly_ohlc_blocks.
    apply (@filter_flat_map_block string ticker String.eqb String.eqb_eq);
      [apply group_keys_NoDup | | exact Ht].
    intros t' r Hr. apply filter_In in Hr. destruct Hr as [Hr _].
    eapply resample_ME_agg_ticker, Hr.
Qed.

Lemma get_monthly_data_by_ticker_partition_witness :
  flat_map (fun t => filter (fun r => String.eqb (ticker r) t)
                            (aggregate_monthly_ohlc (map to_row gap_records)))
           (group_keys (map to_row gap_records))
  = aggregate_monthly_ohlc (map to_row gap_records).
Proof.
  apply (@get_monthly_data_by_ticker_partition
           [aggregate_monthly_ohlc (map to_row gap_records)] 0%nat (map to_row gap_records)).
  reflexivity.
Defined.

(** * The loader *)

(** ** [validate_tickers] *)

Lemma existsb_eqb_In (t : string) (l : list string) :
  existsb (String.eqb t) l = true <-> In t l.
Proof.
  rewrite existsb_exists. split.
  - intros (x & Hx & E). apply String.eqb_eq in E. now subst.
  - intros H. exists t. split; [assumption | apply String.eqb_refl].
Qed.

Lemma unique_from_In (seen l : list string) (x : string) :
  In x (unique_from seen l) <-> In x l /\ ~ In x seen.
Proof.
  revert seen; induction l as [|y l IH]; intros seen; simpl; [tauto|].
  destruct (existsb (String.eqb y) seen) eqn:E.
  - apply existsb_eqb_In in E. rewrite IH. split.
    + tauto.
    + intros [[->|H] Hn]; [contradiction | tauto].
  - assert (Hy : ~ In y seen).
    { intros H. apply existsb_eqb_In in H. congruence. }
    simpl. rewrite IH. simpl. split.
    + intros [->|[H Hn]]; [tauto|]. split; [tauto|]. intros Hs. apply Hn. now right.
    + intros [[->|H] Hn]; [now left|].
      destruct (string_dec y x) as [->|Hne]; [now left|].
      right. split; [assumption|]. intros [E'|Hs]; [congruence | contradiction].
Qed.

Lemma unique_In (l : list string) (x : string) : In x (unique l) <-> In x l.
Proof.
  unfold unique. rewrite unique_from_In. simpl. tauto.
Qed.

Lemma unique_from_NoDup (seen l : list string) : NoDup (unique_from seen l).
Proof.
  revert seen; induction l as [|y l IH]; intros seen; simpl; [constructor|].
  destruct (existsb (String.eqb y) seen); [apply IH|].
  constructor; [|apply IH].
  intros H. apply unique_from_In in H. destruct H as [_ H]. apply H. now left.
Qed.

Lemma missing_tickers_nil (df : list Row) (expected : list string) :
  filter (fun t => negb (existsb (String.eqb t) (unique (map ticker df)))) expected = []
  <-> forall t, In t expected -> exists r, In r df /\ ticker r = t.
Proof.
  split.
  - intros H t Ht.
    destruct (existsb (String.eqb t) (unique (map ticker df))) eqn:E.
    + apply existsb_eqb_In, unique_In, in_map_iff in E.
      destruct E as (r & Er & Hr). eauto.
    + assert (Hin : In t (filter (fun t => negb (existsb (String.eqb t)
                                                  (unique (map ticker df)))) expected)).
      { apply filter_In. split; [assumption|]. now rewrite E. }
      rewrite H in Hin. contradiction.
  - intros H.
    destruct (filter _ expected) as [|t l] eqn:E; [reflexivity|].
    assert (Hin : In t (filter (fun t => negb (existsb (String.eqb t)
                                                (unique (map ticker df)))) expected))
      by (rewrite E; now left).
    apply filter_In in Hin. destruct Hin as [Ht Hneg].
    destruct (H t Ht) as (r & Hr & Er).
    assert (Hex : existsb (String.eqb t) (unique (map ticker df)) = true).
    { apply existsb_eqb_In, unique_In. rewrite <- Er. now apply in_map. }
    rewrite Hex in Hneg. discriminate.
Qed.

(** X11. [validate_tickers] returns [True] exactly when every expected
    ticker has a row in the frame, and raises [ValueError] exactly when
    some expected ticker has none; it never returns [False]. *)
Theorem validate_tickers_result (df : list Row) (expected_tickers : list string) :
  (validate_tickers df expected_tickers = Ok true <->
   forall t, In t expected_tickers -> exists r, In r df /\ ticker r = t) /\
  (validate_tickers df expected_tickers = Raise ValueError <->
   exists t, In t expected_tickers /\ forall r, In r df -> ticker r <> t) /\
  validate_tickers df expected_tickers <> Ok false.
Proof.
  pose proof (missing_tickers_nil df expected_tickers) as Hnil.
  unfold validate_tickers.
  destruct (filter _ expected_tickers) as [|t l] eqn:E.
  - split; [|split].
    + split; [intros _; now apply Hnil | reflexivity].
    + split; [discriminate|]. intros (t & Ht & Hnone).
      destruct (proj1 Hnil eq_refl t Ht) as (r & Hr & Er). now apply Hnone in Hr.
    + discriminate.
  - assert (Hin : In t (filter (fun t => negb (existsb (String.eqb t)
                                                (unique (map ticker df))))
                               expected_tickers))
      by (rewrite E; now left).
    apply filter_In in Hin. destruct Hin as [Ht Hneg]. apply negb_true_iff in Hneg.
    assert (Hnone : forall r, In r df -> ticker r <> t).
    { intros r Hr Er.
      assert (Hex : existsb (String.eqb t) (unique (map ticker df)) = true).
      { apply existsb_eqb_In, unique_In. rewrite <- Er. now apply in_map. }
      congruence. }
    split; [|split].
    + split; [discriminate|]. intros H. apply Hnil in H. discriminate.
    + split; [eauto | reflexivity].
    + discriminate.
Qed.

Lemma validate_tickers_present (df : list Row) (expected_tickers : list string) (t : string) :
  validate_tickers df expected_tickers = Ok true -> In t expected_tickers ->
  exists r, In r df /\ ticker r = t.
Proof.
  unfold validate_tickers. intros H Ht.
  destruct (filter _ expected_tickers) eqn:E; [|discriminate].
  now apply (proj1 (missing_tickers_nil df expected_tickers) E).
Qed.

(** X12. After [validate_tickers] has accepted the daily records, every
    expected ticker has a monthly row: the frame of no expected ticker is
    empty. *)
Theorem validate_tickers_then_aggregate (S0 : list DailyRecord)
    (expected_tickers : list string) (t : string) :
  validate_tickers (map to_row S0) expected_tickers = Ok true ->
  In t expected_tickers ->
  filter (fun r => String.eqb (ticker r) t) (aggregate_monthly_ohlc (map to_row S0)) <> [].
Proof.
  intros Hv Ht.
  destruct (@validate_tickers_present _ _ t Hv Ht) as (r & Hr & Er).
  apply in_map_iff in Hr. destruct Hr as (d & <- & Hd).
  destruct (@aggregate_row_of_record S0 d Hd) as (o & Ho & Eo & _).
  intros Hnil.
  assert (Hin : In o (filter (fun r => String.eqb (ticker r) t)
                             (aggregate_monthly_ohlc (map to_row S0)))).
  { apply filter_In. split; [exact Ho|]. apply String.eqb_eq. now rewrite Eo. }
  rewrite Hnil in Hin. contradiction.
Qed.

Lemma validate_tickers_then_aggregate_witness :
  filter (fun r => String.eqb (ticker r) "GAP")
         (aggregate_monthly_ohlc (map to_row gap_records)) <> [].
Proof.
  apply (@validate_tickers_then_aggregate gap_records ["GAP"%string] "GAP");
    [reflexivity | now left].
Defined.

(** ** The order of [sort_values] *)

Lemma compare_refl (s : string) : String.compare s s = Eq.
Proof.
  now apply OrderedTypeEx.String_as_OT.cmp_eq.
Qed.

Lemma compare_Lt_trans (a b c : string) :
  String.compare a b = Lt -> String.compare b c = Lt -> String.compare a c = Lt.
Proof.
  intros H1 H2.
  apply OrderedTypeEx.String_as_OT.cmp_lt in H1, H2.
  apply OrderedTypeEx.String_as_OT.cmp_lt.
  eapply OrderedTypeEx.String_as_OT.lt_trans; eassumption.
Qed.

Lemma row_leb_trans (a b c : Row) : row_le a b -> row_le b c -> row_le a c.
Proof.
  unfold row_le, row_leb.
  destruct (String.compare (ticker a) (ticker b)) eqn:Eab; try discriminate;
    destruct (String.compare (ticker b) (ticker c)) eqn:Ebc; try discriminate;
    intros H1 H2.
  - apply String.compare_eq_iff in Eab, Ebc. rewrite Eab, Ebc, compare_refl.
    eapply date_leb_trans; eassumption.
  - apply String.compare_eq_iff in Eab. rewrite Eab, Ebc. reflexivity.
  - apply String.compare_eq_iff in Ebc. rewrite <- Ebc, Eab. reflexivity.
  - rewrite (compare_Lt_trans _ _ _ Eab Ebc). reflexivity.
Qed.

Lemma row_leb_false (a b : Row) : row_leb a b = false -> row_le b a.
Proof.
  unfold row_le, row_leb. rewrite (String.compare_antisym (ticker b) (ticker a)).
  destruct (String.compare (ticker a) (ticker b)); simpl; intros H.
  - apply date_ltb_leb, date_leb_false, H.
  - discriminate.
  - reflexivity.
Qed.

Lemma insert_by_ticker_date_perm (r : Row) (l : list Row) :
  Permutation (insert_by_ticker_date r l) (r :: l).
Proof.
  induction l as [|h t IH]; simpl; [reflexivity|].
  destruct (row_leb r h); [reflexivity|].
  rewrite IH. apply perm_swap.
Qed.

Lemma sort_values_ticker_date_perm (df : list Row) :
  Permutation (sort_values_ticker_date df) df.
Proof.
  induction df as [|r df IH]; simpl; [reflexivity|].
  rewrite insert_by_ticker_date_perm. now constructor.
Qed.

Lemma insert_by_ticker_date_sorted (r : Row) (l : list Row) :
  StronglySorted row_le l -> StronglySorted row_le (insert_by_ticker_date r l).
Proof.
  induction 1 as [|h t Ht IH Hh]; simpl.
  - constructor; constructor.
  - destruct (row_leb r h) eqn:E.
    + constructor; [constructor; assumption|].
      constructor; [exact E|].
      apply Forall_forall. intros x Hx. rewrite Forall_forall in Hh.
      eapply row_leb_trans; [exact E | now apply Hh].
    + constructor; [assumption|].
      apply Forall_forall. intros x Hx.
      apply (Permutation_in _ (insert_by_ticker_date_perm r t)) in Hx.
      destruct Hx as [<-|Hx].
      * apply row_leb_false, E.
      * rewrite Forall_forall in Hh. now apply Hh.
Qed.

Lemma sort_values_ticker_date_sorted (df : list Row) :
  StronglySorted row_le (sort_values_ticker_date df).
Proof.
  induction df as [|r df IH]; simpl;
    [constructor | now apply insert_by_ticker_date_sorted].
Qed.

(** Rows in the order of ticker and date are in date order within each
    ticker. *)
Lemma sorted_within_instrument_of_row_le (df : list Row) :
  StronglySorted row_le df -> sorted_within_instrument df = true.
Proof.
  induction 1 as [|r df Hdf IH Hr]; simpl; [reflexivity|].
  rewrite IH, andb_true_r. apply forallb_forall. intros x Hx.
  rewrite Forall_forall in Hr. specialize (Hr x Hx). unfold row_le, row_leb in Hr.
  destruct (String.eqb_spec (ticker x) (ticker r)) as [E|E]; [|reflexivity].
  simpl. rewrite E, compare_refl in Hr. exact Hr.
Qed.

(** ** [load_stock_data] *)


Lemma has_column_without_date (cols : list string) (c : string) :
  existsb (String.eqb c) (filter (fun col => negb (String.eqb col "date")) cols)
  = if String.eqb c "date" then false else existsb (String.eqb c) cols.
Proof.
  induction cols as [|x cols IH]; simpl; [now destruct (String.eqb c "date")|].
  destruct (String.eqb_spec x "date") as [Ex|Hx]; simpl; rewrite IH;
    destruct (String.eqb_spec c "date") as [Ec|Hc]; try reflexivity.
  - destruct (String.eqb_spec c x); [congruence | reflexivity].
  - destruct (String.eqb_spec c x); [congruence | reflexivity].
Qed.

Lemma to_datetime_Ok (l : list csv_row) (dated : list Row) :
  to_datetime l = Ok dated <-> l = map Dated dated.
Proof.
  revert dated; induction l as [|c l IH]; intros dated.
  - simpl. split; [intros [= <-]; reflexivity|].
    destruct dated; [reflexivity | discriminate].
  - destruct c as [r|s]; simpl.
    + destruct (to_datetime l) as [rs|e]; simpl.
      * split.
        -- intros [= <-]. simpl. f_equal. now apply IH.
        -- destruct dated as [|r' dated]; [discriminate|]. simpl.
           intros [= -> E]. apply IH in E. congruence.
      * split; [discriminate|]. destruct dated as [|r' dated]; [discriminate|].
        simpl. intros [= -> E]. apply IH in E. discriminate.
    + split; [discriminate|]. destruct dated; discriminate.
Qed.


Section LoaderProperties.

Variable path_exists : string -> bool.
Variable read_csv : string -> result CsvTable.


(** X14. The frame [load_stock_data] returns holds the rows of the file,
    none lost or repeated, in the order of ticker and of date within a
    ticker, so in date order within every ticker, as the aggregation
    expects; the date is its index and no longer a column, and the other
    columns of the file are kept. *)
Theorem load_stock_data_sorted (file_path : string) (df : Table) :
  load_stock_data path_exists read_csv file_path = Loaded df ->
  exists raw dated,
    read_csv file_path = Ok raw /\
    csv_rows raw = map Dated dated /\
    Permutation (rows df) dated /\
    StronglySorted row_le (rows df) /\
    sorted_within_instrument (rows df) = true /\
    index_name df = Some "date"%string /\
    has_column df "date" = false /\
    forall c, c <> "date"%string ->
      has_column df c = existsb (String.eqb c) (csv_header raw).
Proof.
  unfold load_stock_data.
  destruct (path_exists file_path); cbn [negb]; [|discriminate].
  destruct (read_csv file_path) as [raw|e]; [|discriminate].
  destruct (existsb (String.eqb "date") (csv_header raw)); cbn [negb]; [|discriminate].
  destruct (to_datetime (csv_rows raw)) as [dated|e] eqn:Et; [|discriminate].
  cbv zeta. destruct (filter _ required_columns); [|discriminate].
  intros [= <-]. exists raw, dated. cbn [rows index_name columns].
  split; [reflexivity|].
  split; [now apply to_datetime_Ok|].
  split; [apply sort_values_ticker_date_perm|].
  split; [apply sort_values_ticker_date_sorted|].
  split; [apply sorted_within_instrument_of_row_le, sort_values_ticker_date_sorted|].
  split; [reflexivity|].
  unfold has_column. cbn [columns]. split.
  - now rewrite has_column_without_date.
  - intros c Hc. rewrite has_column_without_date.
    destruct (String.eqb_spec c "date"); [contradiction | reflexivity].
Qed.

End LoaderProperties.

Lemma load_stock_data_sorted_witness :
  exists df,
    load_stock_data (fun _ => true)
      (fun _ => Ok {| csv_header := required_columns;
                      csv_rows := map Dated (map to_row (rev gap_records)) |})
      "data.csv" = Loaded df /\
    sorted_within_instrument (rows df) = true.
Proof.
  eexists. split; [reflexivity|].
  destruct (@load_stock_data_sorted (fun _ => true)
              (fun _ => Ok {| csv_header := required_columns;
                              csv_rows := map Dated (map to_row (rev gap_records)) |})
              "data.csv" _ eq_refl) as (raw & dated & _ & _ & _ & _ & H & _).
  exact H.
Defined.

(** * The writer *)

Lemma reset_index_date (df : Table) :
  index_name df = Some "date"%string -> has_column df "date" = false ->
  reset_index df
  = Ok {| index_name := None; columns := "date"%string :: columns df; rows := rows df |}.
Proof.
  intros Hi Hd. unfold reset_index. rewrite Hi, Hd. reflexivity.
Qed.

Lemma has_rows_filter (l : list Row) (t : string) :
  has_rows l t = match filter (fun r => String.eqb (ticker r) t) l with
                 | [] => false
                 | _ :: _ => true
                 end.
Proof.
  unfold has_rows. induction l as [|r l IH]; simpl; [reflexivity|].
  destruct (String.eqb (ticker r) t); [reflexivity | exact IH].
Qed.

Lemma has_rows_In (l : list Row) (t : string) :
  has_rows l t = true <-> exists r, In r l /\ ticker r = t.
Proof.
  unfold has_rows. rewrite existsb_exists.
  split; intros (r & Hr & E); exists r; (split; [assumption|]);
    now apply String.eqb_eq.
Qed.

Lemma written_paths_app (w1 w2 : list fs_event) :
  written_paths (w1 ++ w2) = written_paths w1 ++ written_paths w2.
Proof.
  induction w1 as [|[d|p c r] w1 IH]; simpl; congruence.
Qed.

Lemma written_rows_app (w1 w2 : list fs_event) :
  written_rows (w1 ++ w2) = written_rows w1 ++ written_rows w2.
Proof.
  induction w1 as [|[d|p c r] w1 IH]; simpl; [reflexivity | assumption|].
  now rewrite IH, app_assoc.
Qed.

Lemma written_files_app (w1 w2 : list fs_event) :
  written_files (w1 ++ w2) = written_files w1 ++ written_files w2.
Proof.
  induction w1 as [|[d|p c r] w1 IH]; simpl; [reflexivity | assumption|].
  now rewrite IH.
Qed.

Lemma written_files_files (path : string -> string) (cols : list string)
    (content : string -> list Row) (dir : string) (ts : list string) :
  written_files (flat_map (fun t => [Mkdir dir; ToCsv (path t) cols (content t)]) ts)
  = map (fun t => (path t, content t)) ts.
Proof.
  induction ts as [|t ts IH]; simpl; congruence.
Qed.

Lemma written_paths_files (path : string -> string) (cols : list string)
    (content : string -> list Row) (dir : string) (ts : list string) :
  written_paths (flat_map (fun t => [Mkdir dir; ToCsv (path t) cols (content t)]) ts)
  = map path ts.
Proof.
  induction ts as [|t ts IH]; simpl; congruence.
Qed.

Lemma written_rows_files (path : string -> string) (cols : list string)
    (l : list Row) (dir : string) (ts : list string) :
  written_rows
    (flat_map (fun t => [Mkdir dir;
                         ToCsv (path t) cols (filter (fun r => String.eqb (ticker r) t) l)])
              (filter (has_rows l) ts))
  = flat_map (fun t => filter (fun r => String.eqb (ticker r) t) l) ts.
Proof.
  induction ts as [|t ts IH]; [reflexivity|]. cbn [filter flat_map].
  rewrite (has_rows_filter l t).
  destruct (filter (fun r => String.eqb (ticker r) t) l) as [|r rest] eqn:E.
  - exact IH.
  - cbn [flat_map app written_rows]. rewrite IH, ?E. reflexivity.
Qed.

Section PartitionPerm.

Variables (K : Type) (key : Row -> K) (keq : K -> K -> bool).
Hypothesis keq_spec : forall a b, keq a b = true <-> a = b.

Lemma filter_split_perm (l : list Row) (k : K) :
  Permutation l (filter (fun r => keq (key r) k) l
                 ++ filter (fun r => negb (keq (key r) k)) l).
Proof.
  induction l as [|r l IH]; [reflexivity|]. simpl.
  destruct (keq (key r) k); simpl.
  - now constructor.
  - rewrite <- Permutation_middle. now constructor.
Qed.

Lemma filter_other_key (l : list Row) (k k' : K) :
  k' <> k ->
  filter (fun r => keq (key r) k') (filter (fun r => negb (keq (key r) k)) l)
  = filter (fun r => keq (key r) k') l.
Proof.
  intros Hne. induction l as [|r l IH]; [reflexivity|]. simpl.
  destruct (keq (key r) k) eqn:E; simpl.
  - apply keq_spec in E. destruct (keq (key r) k') eqn:E'; [|exact IH].
    apply keq_spec in E'. congruence.
  - now rewrite IH.
Qed.

(** The frames of distinct keys that cover a frame are a rearrangement of
    the frame. *)
Lemma partition_perm (ks : list K) (l : list Row) :
  NoDup ks -> (forall r, In r l -> In (key r) ks) ->
  Permutation (flat_map (fun k => filter (fun r => keq (key r) k) l) ks) l.
Proof.
  intros Hnd. revert l. induction Hnd as [|k ks Hk Hnd IH]; intros l Hin.
  - destruct l as [|r l]; [reflexivity|]. destruct (Hin r (or_introl eq_refl)).
  - simpl. etransitivity; [|symmetry; apply (filter_split_perm l k)].
    apply Permutation_app_head.
    rewrite <- (IH (filter (fun r => negb (keq (key r) k)) l)).
    + erewrite flat_map_ext_in; [reflexivity|].
      intros k' Hk'. symmetry. apply filter_other_key. congruence.
    + intros r Hr. apply filter_In in Hr. destruct Hr as [Hr Hneg].
      destruct (Hin r Hr) as [E|H]; [|assumption].
      assert (keq (key r) k = true) by (apply keq_spec; congruence).
      rewrite H in Hneg. discriminate.
Qed.

End PartitionPerm.

Section WriterProperties.

Variable path_join : string -> string -> string.

Lemma write_ticker_to_csv_run (df : Table) (t dir : string) (w : list fs_event) :
  index_name df = Some "date"%string -> has_column df "date" = false ->
  write_ticker_to_csv path_join df t dir w
  = (Ok (path_join dir (result_csv t)),
     w ++ [Mkdir dir; ToCsv (path_join dir (result_csv t)) (csv_columns df) (rows df)]).
Proof.
  intros Hi Hd. unfold write_ticker_to_csv, io_bind, emit, io_ret.
  rewrite (reset_index_date df Hi Hd). cbn [rows columns].
  rewrite <- app_assoc. reflexivity.
Qed.

(** X15. For a frame indexed by date, [write_ticker_to_csv] makes the
    directory, writes one file, [result_<ticker>.csv] in that directory,
    and returns its path.  The file holds every row of the frame, in
    order; its columns are the date and those of the other ten output
    columns that the frame has, in the fixed order, never the ticker; a
    frame with all of them gets all eleven. *)
Theorem write_ticker_to_csv_file (df : Table) (t dir : string) (w : list fs_event) :
  index_name df = Some "date"%string -> has_column df "date" = false ->
  exists cols,
    write_ticker_to_csv path_join df t dir w
    = (Ok (path_join dir (result_csv t)),
       w ++ [Mkdir dir; ToCsv (path_join dir (result_csv t)) cols (rows df)]) /\
    hd_error cols = Some "date"%string /\
    (forall c, In c cols <->
               In c output_columns /\ (c = "date"%string \/ has_column df c = true)) /\
    ~ In "ticker"%string cols /\
    ((forall c, In c output_columns -> c <> "date"%string -> has_column df c = true) ->
     cols = output_columns).
Proof.
  intros Hi Hd. exists (csv_columns df).
  split; [now apply write_ticker_to_csv_run|].
  assert (Hin : forall c, In c (csv_columns df) <->
            In c output_columns /\ (c = "date"%string \/ has_column df c = true)).
  { intros c. unfold csv_columns. rewrite filter_In. cbn [existsb].
    rewrite orb_true_iff, String.eqb_eq. reflexivity. }
  split; [reflexivity|]. split; [exact Hin|]. split.
  - intros H. apply Hin in H. destruct H as [H _].
    simpl in H. intuition discriminate.
  - intros Hall. unfold csv_columns. apply forallb_filter_id, forallb_forall.
    intros c Hc. cbn [existsb]. apply orb_true_iff.
    destruct (String.eqb_spec c "date"); [now left | right]. now apply Hall.
Qed.

Lemma partition_loop_run (df : Table) (dir : string) :
  has_column df "ticker" = true ->
  index_name df = Some "date"%string -> has_column df "date" = false ->
  forall tickers created w,
    partition_loop path_join df tickers dir created w
    = (Ok (created ++
           map (fun t => path_join dir (result_csv t)) (filter (has_rows (rows df)) tickers)),
       w ++ flat_map
              (fun t =>
                 [Mkdir dir;
                  ToCsv (path_join dir (result_csv t)) (csv_columns df)
                        (filter (fun r => String.eqb (ticker r) t) (rows df))])
              (filter (has_rows (rows df)) tickers)).
Proof.
  intros Ht Hi Hd. induction tickers as [|t tickers IH]; intros created w.
  - simpl. unfold io_ret. now rewrite !app_nil_r.
  - cbn [partition_loop]. rewrite Ht. cbn [negb rows filter].
    rewrite (has_rows_filter (rows df) t).
    destruct (filter (fun r => String.eqb (ticker r) t) (rows df)) as [|r l] eqn:E.
    + rewrite IH. reflexivity.
    + unfold io_bind.
      rewrite write_ticker_to_csv_run by assumption.
      cbn [rows columns]. rewrite IH. cbn [map flat_map]. rewrite E.
      rewrite <- !app_assoc. reflexivity.
Qed.

(** X16. For a frame indexed by date, [partition_and_write_results] writes
    one file for each listed ticker that has rows, in the order of the
    list, and none for a ticker without rows; it returns the paths of
    these files.  The file of a ticker is [result_<ticker>.csv] and holds
    the rows of that ticker, all of them, in the order of the frame, and no
    other row; so the files together hold the rows of the listed tickers,
    and when the list names every ticker of the frame once, every row of
    the frame is written exactly once. *)
Theorem partition_and_write_results_files (df : Table) (tickers : list string)
    (dir : string) (w : list fs_event) :
  has_column df "ticker" = true ->
  index_name df = Some "date"%string -> has_column df "date" = false ->
  exists w',
    partition_and_write_results path_join df tickers dir w
    = (Ok (map (fun t => path_join dir (result_csv t))
               (filter (has_rows (rows df)) tickers)), w') /\
    written_paths w'
    = written_paths w ++ map (fun t => path_join dir (result_csv t))
                             (filter (has_rows (rows df)) tickers) /\
    written_rows w'
    = written_rows w ++ flat_map (fun t => filter (fun r => String.eqb (ticker r) t) (rows df))
                                 tickers /\
    written_files w'
    = written_files w ++
      map (fun t => (path_join dir (result_csv t),
                     filter (fun r => String.eqb (ticker r) t) (rows df)))
          (filter (has_rows (rows df)) tickers) /\
    (forall p content, In (p, content) (written_files w') ->
       In (p, content) (written_files w) \/
       exists t, In t tickers /\ p = path_join dir (result_csv t) /\
                 content <> [] /\
                 forall r, In r content <-> In r (rows df) /\ ticker r = t) /\
    (forall t, has_rows (rows df) t = true <-> exists r, In r (rows df) /\ ticker r = t) /\
    (NoDup tickers -> (forall r, In r (rows df) -> In (ticker r) tickers) ->
     Permutation (flat_map (fun t => filter (fun r => String.eqb (ticker r) t) (rows df))
                           tickers)
                 (rows df)).
Proof.
  intros Ht Hi Hd. unfold partition_and_write_results.
  rewrite (@partition_loop_run df dir Ht Hi Hd). cbn [app].
  eexists. split; [reflexivity|].
  rewrite written_paths_app, written_rows_app, written_files_app.
  rewrite (@written_files_files
             (fun t => path_join dir (result_csv t)) (csv_columns df)
             (fun t => filter (fun r => String.eqb (ticker r) t) (rows df)) dir).
  split; [f_equal; apply written_paths_files|].
  split; [f_equal; apply written_rows_files|].
  split; [reflexivity|].
  split.
  { intros p content Hin. apply in_app_or in Hin. destruct Hin as [Hin|Hin]; [now left|].
    right. apply in_map_iff in Hin. destruct Hin as (t & [= <- <-] & Hin).
    apply filter_In in Hin. destruct Hin as [Hin Hrows].
    exists t. split; [exact Hin|]. split; [reflexivity|]. split.
    - rewrite has_rows_filter in Hrows.
      destruct (filter (fun r => String.eqb (ticker r) t) (rows df));
        [discriminate | discriminate].
    - intros r. rewrite filter_In, String.eqb_eq. reflexivity. }
  split; [apply has_rows_In|].
  apply (@partition_perm string ticker String.eqb String.eqb_eq).
Qed.

End WriterProperties.

Lemma write_ticker_to_csv_file_witness :
  exists cols,
    write_ticker_to_csv slash_join monthly_table "TEST" "output" []
    = (Ok "output/result_TEST.csv"%string,
       [Mkdir "output"; ToCsv "output/result_TEST.csv" cols monthly_sample]) /\
    ~ In "ticker"%string cols.
Proof.
  destruct (@write_ticker_to_csv_file slash_join monthly_table "TEST" "output" [])
    as (cols & Hrun & _ & _ & Hno & _); [reflexivity | reflexivity|].
  exists cols. split; [exact Hrun | exact Hno].
Defined.

Lemma partition_and_write_results_files_witness :
  exists w',
    partition_and_write_results slash_join monthly_table ["NONE"; "TEST"]%string "output" []
    = (Ok ["output/result_TEST.csv"%string], w') /\
    written_rows w' = monthly_sample.
Proof.
  destruct (@partition_and_write_results_files slash_join monthly_table
              ["NONE"; "TEST"]%string "output" [])
    as (w' & Hrun & _ & Hrows & _); [reflexivity | reflexivity | reflexivity|].
  exists w'. split; [exact Hrun | exact Hrows].
Defined.

(** * Further properties of the annotation *)

Lemma calculate_ema_passthrough (series : list (option Q)) (W : Z) :
  (0 < W)%Z -> (Z.of_nat (length series) <= W - 1)%Z -> calculate_ema series W = Ok series.
Proof.
  intros HW Hs.
  destruct (calculate_ema_Ok series HW) as (sma & out & _ & _ & Hrun & Hlen & Hval).
  rewrite Hrun. f_equal. apply nth_error_ext. intros i.
  destruct (Nat.lt_ge_cases i (length series)) as [Hi|Hi].
  - rewrite (Hval i Hi). unfold ema_value.
    destruct (Z.ltb_spec (Z.of_nat i) (W - 1)); [|lia].
    symmetry. now apply nth_error_nth'.
  - transitivity (@None (option Q)); [|symmetry]; apply nth_error_None; lia.
Qed.

(** A window that the series does not fill gives the mean of all values so
    far, whatever its length. *)
Lemma calculate_sma_long_window (series : list (option Q)) (W1 W2 : Z) :
  (Z.of_nat (length series) <= W1)%Z -> (Z.of_nat (length series) <= W2)%Z ->
  (0 < W1)%Z -> (0 < W2)%Z ->
  calculate_sma series W1 = calculate_sma series W2.
Proof.
  intros H1 H2 P1 P2. unfold calculate_sma.
  rewrite (rolling_mean_Ok _ P1), (rolling_mean_Ok _ P2). f_equal.
  apply map_ext_in. intros i Hi. apply in_seq in Hi.
  unfold window_start.
  replace (Z.to_nat (Z.max 0 (Z.of_nat i + 1 - W1))) with 0%nat by lia.
  replace (Z.to_nat (Z.max 0 (Z.of_nat i + 1 - W2))) with 0%nat by lia.
  reflexivity.
Qed.

(** X17. On any frame, in any order, [add_technical_indicators] returns a
    new frame in ascending order of date that holds the rows of the frame,
    none lost or repeated, with all their fields other than the four
    indicators; the frame it is given stays as it was. *)
Theorem add_technical_indicators_sorts (st : list (list Row)) (df : nat) (f : list Row) :
  nth_error st df = Some f ->
  exists a st' out,
    add_technical_indicators df st = Ok (a, st') /\
    (forall b g, nth_error st b = Some g -> nth_error st' b = Some g) /\
    nth_error st' a = Some out /\
    StronglySorted date_le out /\
    Permutation (map base_fields out) (map base_fields f) /\
    forall r, In r out ->
      SMA_10 r <> None /\ SMA_20 r <> None /\ EMA_10 r <> None /\ EMA_20 r <> None.
Proof.
  intros Hdf.
  destruct (add_technical_indicators_run _ _ Hdf)
    as (s10 & s20 & e10 & e20 & _ & _ & _ & _ & L10 & L20 & M10 & M20 & Hrun).
  set (g := sort_index f) in *.
  assert (Hg : length g = length f) by apply Permutation_length, sort_index_perm.
  eexists _, _, _. split; [exact Hrun|].
  split; [intros b h Hb; now do 2 apply nth_error_app_keep|].
  split; [apply nth_error_last|].
  split.
  { apply (@sorted_same_dates g); [|apply sort_index_sorted].
    symmetry. apply with_indicators_proj; auto; congruence. }
  split.
  { rewrite with_indicators_proj; auto; try congruence.
    apply Permutation_map, sort_index_perm. }
  intros r Hr. apply In_nth_error in Hr. destruct Hr as (i & Hr).
  rewrite with_indicators_nth in Hr.
  destruct (nth_error g i), (nth_error s10 i), (nth_error s20 i),
    (nth_error e10 i), (nth_error e20 i); try discriminate.
  injection Hr as <-. repeat split; discriminate.
Qed.

Lemma add_technical_indicators_sorts_witness :
  exists a st' out,
    add_technical_indicators 0 [monthly_shuffled] = Ok (a, st') /\
    nth_error st' a = Some out /\
    StronglySorted date_le out.
Proof.
  destruct (@add_technical_indicators_sorts [monthly_shuffled] 0%nat monthly_shuffled)
    as (a & st' & out & Hrun & _ & Hout & Hs & _); [reflexivity|].
  exists a, st', out. auto.
Defined.

(** X18. With at most ten rows the two simple averages of a row are
    equal; with at most nine rows the two exponential averages of a row
    are its close. *)
Theorem add_technical_indicators_short_history (st : list (list Row)) (df : nat)
    (f : list Row) :
  nth_error st df = Some f ->
  (length f <= 10)%nat ->
  exists a st' out,
    add_technical_indicators df st = Ok (a, st') /\
    nth_error st' a = Some out /\
    (forall r, In r out -> SMA_10 r = SMA_20 r) /\
    ((length f <= 9)%nat ->
     forall r, In r out -> EMA_10 r = Some (close r) /\ EMA_20 r = Some (close r)).
Proof.
  intros Hdf Hlen.
  destruct (add_technical_indicators_run _ _ Hdf)
    as (s10 & s20 & e10 & e20 & H10 & H20 & E10 & E20 & L10 & L20 & M10 & M20 & Hrun).
  set (g := sort_index f) in *.
  assert (Hg : length g = length f) by apply Permutation_length, sort_index_perm.
  eexists _, _, _. split; [exact Hrun|]. split; [apply nth_error_last|].
  assert (Hs : s10 = s20).
  { assert (E : calculate_sma (map close g) 10 = calculate_sma (map close g) 20)
      by (apply calculate_sma_long_window; rewrite ?length_map; lia).
    congruence. }
  split.
  - intros r Hr. apply In_nth_error in Hr. destruct Hr as (i & Hr).
    rewrite with_indicators_nth, Hs in Hr.
    destruct (nth_error g i), (nth_error s20 i), (nth_error e10 i), (nth_error e20 i);
      try discriminate.
    injection Hr as <-. reflexivity.
  - intros Hlen9.
    assert (X10 : e10 = map close g).
    { rewrite calculate_ema_passthrough in E10 by (rewrite ?length_map; lia). congruence. }
    assert (X20 : e20 = map close g).
    { rewrite calculate_ema_passthrough in E20 by (rewrite ?length_map; lia). congruence. }
    intros r Hr. apply In_nth_error in Hr. destruct Hr as (i & Hr).
    rewrite with_indicators_nth, X10, X20, nth_error_map in Hr.
    destruct (nth_error g i) as [r0|], (nth_error s10 i), (nth_error s20 i);
      try discriminate.
    simpl in Hr. injection Hr as <-. split; reflexivity.
Qed.

Lemma add_technical_indicators_short_history_witness :
  exists a st' out,
    add_technical_indicators 0 [monthly_sample] = Ok (a, st') /\
    nth_error st' a = Some out /\
    forall r, In r out -> EMA_10 r = Some (close r) /\ EMA_20 r = Some (close r).
Proof.
  destruct (@add_technical_indicators_short_history [monthly_sample] 0%nat monthly_sample)
    as (a & st' & out & Hrun & Hout & _ & He); [reflexivity | simpl; lia|].
  exists a, st', out. split; [exact Hrun|]. split; [exact Hout|].
  apply He. simpl. lia.
Defined.

(** * The pipeline *)

Lemma add_technical_indicators_annotated (st : list (list Row)) (df : nat) (f : list Row) :
  nth_error st df = Some f ->
  add_technical_indicators df st
  = Ok (length (st ++ [f]), (st ++ [f]) ++ [annotated f]).
Proof.
  intros Hdf.
  destruct (add_technical_indicators_run _ _ Hdf)
    as (s10 & s20 & e10 & e20 & H10 & H20 & E10 & E20 & _ & _ & _ & _ & Hrun).
  unfold annotated. now rewrite H10, H20, E10, E20.
Qed.

Lemma annotated_spec (f : list Row) :
  map base_fields (annotated f) = map base_fields (sort_index f) /\
  forall r, In r (annotated f) ->
    SMA_10 r <> None /\ SMA_20 r <> None /\ EMA_10 r <> None /\ EMA_20 r <> None.
Proof.
  unfold annotated. set (g := sort_index f).
  destruct (@calculate_sma_length (map close g) 10) as (s10 & -> & L10); [lia|].
  destruct (@calculate_sma_length (map close g) 20) as (s20 & -> & L20); [lia|].
  destruct (@calculate_ema_length (map close g) 10) as (e10 & -> & M10); [lia|].
  destruct (@calculate_ema_length (map close g) 20) as (e20 & -> & M20); [lia|].
  rewrite length_map in L10, L20, M10, M20. split.
  - apply with_indicators_proj; auto.
  - intros r Hr. apply In_nth_error in Hr. destruct Hr as (i & Hr).
    rewrite with_indicators_nth in Hr.
    destruct (nth_error g i), (nth_error s10 i), (nth_error s20 i),
      (nth_error e10 i), (nth_error e20 i); try discriminate.
    injection Hr as <-. repeat split; discriminate.
Qed.

Lemma annotated_perm (f : list Row) :
  Permutation (map base_fields (annotated f)) (map base_fields f).
Proof.
  rewrite (proj1 (annotated_spec f)). apply Permutation_map, sort_index_perm.
Qed.

Lemma annotated_ticker (f : list Row) (t : string) (r : Row) :
  (forall x, In x f -> ticker x = t) -> In r (annotated f) -> ticker r = t.
Proof.
  intros Hf Hr.
  assert (H : In (base_fields r) (map base_fields f)).
  { apply (Permutation_in _ (annotated_perm f)). now apply in_map. }
  apply in_map_iff in H. destruct H as (x & E & Hx).
  unfold base_fields in E. injection E as _ Et _ _ _ _ _ _.
  rewrite <- Et. now apply Hf.
Qed.

Lemma annotated_nonempty (f : list Row) : f <> [] -> annotated f <> [].
Proof.
  intros Hf E. pose proof (Permutation_length (annotated_perm f)) as H.
  rewrite E, !length_map in H. destruct f; [congruence | discriminate].
Qed.

Lemma df_empty_last (st : list (list Row)) (g : list Row) :
  df_empty (length st) (st ++ [g])
  = Ok (match g with [] => true | _ :: _ => false end, st ++ [g]).
Proof.
  unfold df_empty, bindM, load, ret. now rewrite nth_error_last.
Qed.

(** The loop of step 4 annotates the rows of each listed ticker that has
    rows, and changes no object there was. *)
Lemma indicators_loop_run (monthly : list Row) (tickers : list string) :
  forall (acc : list nat) (st : list (list Row)),
    nth_error st 0 = Some monthly ->
    exists refs st',
      indicators_loop 0 tickers acc st = Ok (acc ++ refs, st') /\
      (forall a g, nth_error st a = Some g -> nth_error st' a = Some g) /\
      Forall2 (fun ref t =>
                 nth_error st' ref
                 = Some (annotated (filter (fun r => String.eqb (ticker r) t) monthly)))
              refs (filter (has_rows monthly) tickers).
Proof.
  induction tickers as [|t tickers IH]; intros acc st H0.
  - exists [], st. simpl. unfold ret. rewrite app_nil_r. auto.
  - cbn [indicators_loop filter]. rewrite (has_rows_filter monthly t).
    run_step (@df_getitem_ticker_eq_run st 0%nat monthly t H0).
    remember (filter (fun r => String.eqb (ticker r) t) monthly) as g eqn:Eg.
    run_step (@df_copy_run (st ++ [g]) (length st) g (nth_error_last st g)).
    run_step (df_empty_last (st ++ [g]) g).
    assert (K2 : forall a h, nth_error st a = Some h ->
                             nth_error ((st ++ [g]) ++ [g]) a = Some h)
      by (intros a h Ha; now do 2 apply nth_error_app_keep).
    destruct g as [|r0 g0].
    + destruct (IH acc ((st ++ [[]]) ++ [[]])) as (refs & st' & Hrun & Hkeep & Hrefs);
        [now apply K2|].
      exists refs, st'. split; [exact Hrun|]. split; [|exact Hrefs].
      intros a h Ha. apply Hkeep. now apply K2.
    + set (st2 := (st ++ [r0 :: g0]) ++ [r0 :: g0]) in *.
      run_step (@add_technical_indicators_annotated st2 (length (st ++ [r0 :: g0]))
                  (r0 :: g0) (nth_error_last _ _)).
      set (st3 := (st2 ++ [r0 :: g0]) ++ [annotated (r0 :: g0)]).
      assert (K3 : forall a h, nth_error st2 a = Some h -> nth_error st3 a = Some h)
        by (intros a h Ha; now do 2 apply nth_error_app_keep).
      destruct (IH (acc ++ [length (st2 ++ [r0 :: g0])]) st3)
        as (refs & st' & Hrun & Hkeep & Hrefs); [now apply K3, K2|].
      exists (length (st2 ++ [r0 :: g0]) :: refs), st'.
      split; [rewrite Hrun, <- app_assoc; reflexivity|].
      split; [intros a h Ha; now apply Hkeep, K3, K2|].
      constructor; [|exact Hrefs].
      rewrite <- Eg. apply Hkeep. apply nth_error_last.
Qed.

Lemma load_all_run (A : Type) (F : A -> list Row) (st : list (list Row))
    (refs : list nat) (ts : list A) :
  Forall2 (fun ref t => nth_error st ref = Some (F t)) refs ts ->
  load_all refs st = Ok (map F ts, st).
Proof.
  induction 1 as [|ref t refs ts H Hrest IH]; [reflexivity|].
  cbn [load_all]. unfold bindM at 1. unfold load at 1. rewrite H.
  unfold bindM at 1. rewrite IH. reflexivity.
Qed.

Lemma pd_concat_run (A : Type) (F : A -> list Row) (st : list (list Row))
    (refs : list nat) (ts : list A) :
  Forall2 (fun ref t => nth_error st ref = Some (F t)) refs ts -> ts <> [] ->
  pd_concat refs st = Ok (length st, st ++ [flat_map F ts]).
Proof.
  intros H Hne. unfold pd_concat. destruct H as [|ref t refs ts H Hrest]; [congruence|].
  run_step (@load_all_run A F st (ref :: refs) (t :: ts) (Forall2_cons _ _ H Hrest)).
  unfold alloc. now rewrite flat_map_concat_map.
Qed.

Lemma EXPECTED_TICKERS_NoDup : NoDup EXPECTED_TICKERS.
Proof.
  unfold EXPECTED_TICKERS. repeat constructor; simpl; intuition discriminate.
Qed.

Lemma step4_run (monthly : list Row) :
  filter (has_rows monthly) EXPECTED_TICKERS <> [] ->
  exists st',
    (monthly_with_indicators <~ indicators_loop 0 EXPECTED_TICKERS [] ;;
     df_monthly_final <~ pd_concat monthly_with_indicators ;;
     load df_monthly_final)%store [monthly]
    = Ok (flat_map (fun t => annotated (filter (fun r => String.eqb (ticker r) t) monthly))
                   (filter (has_rows monthly) EXPECTED_TICKERS), st').
Proof.
  intros Hne.
  destruct (@indicators_loop_run monthly EXPECTED_TICKERS [] [monthly] eq_refl)
    as (refs & st' & Hrun & _ & Hrefs).
  run_step Hrun. cbn [app].
  run_step (@pd_concat_run _ _ _ _ _ Hrefs Hne).
  eexists. unfold load. rewrite nth_error_last. reflexivity.
Qed.

Lemma step4_raises (monthly : list Row) :
  filter (has_rows monthly) EXPECTED_TICKERS = [] ->
  (monthly_with_indicators <~ indicators_loop 0 EXPECTED_TICKERS [] ;;
   df_monthly_final <~ pd_concat monthly_with_indicators ;;
   load df_monthly_final)%store [monthly]
  = Raise ValueError.
Proof.
  intros Hnil.
  destruct (@indicators_loop_run monthly EXPECTED_TICKERS [] [monthly] eq_refl)
    as (refs & st' & Hrun & _ & Hrefs).
  run_step Hrun. rewrite Hnil in Hrefs. inversion Hrefs. reflexivity.
Qed.

Lemma Permutation_flat_map_blocks (A B : Type) (F G : A -> list B) (l : list A) :
  (forall x, In x l -> Permutation (F x) (G x)) ->
  Permutation (flat_map F l) (flat_map G l).
Proof.
  induction l as [|x l IH]; intros H; [reflexivity|]. simpl.
  apply Permutation_app; [apply H; now left | apply IH; intros; apply H; now right].
Qed.

Lemma flat_map_map (A B C : Type) (f : B -> C) (F : A -> list B) (l : list A) :
  map f (flat_map F l) = flat_map (fun x => map f (F x)) l.
Proof.
  induction l as [|x l IH]; [reflexivity|]. simpl. now rewrite map_app, IH.
Qed.

Lemma flat_map_has_rows (monthly : list Row) (ts : list string) :
  flat_map (fun t => filter (fun r => String.eqb (ticker r) t) monthly)
           (filter (has_rows monthly) ts)
  = flat_map (fun t => filter (fun r => String.eqb (ticker r) t) monthly) ts.
Proof.
  induction ts as [|t ts IH]; [reflexivity|]. cbn [filter flat_map].
  rewrite (has_rows_filter monthly t).
  destruct (filter (fun r => String.eqb (ticker r) t) monthly) as [|r l] eqn:E.
  - exact IH.
  - cbn [flat_map]. now rewrite E, IH.
Qed.

Lemma filter_in_expected (monthly : list Row) (t : string) :
  In t EXPECTED_TICKERS ->
  filter (fun r => String.eqb (ticker r) t) (filter in_expected monthly)
  = filter (fun r => String.eqb (ticker r) t) monthly.
Proof.
  intros Ht. induction monthly as [|r l IH]; [reflexivity|]. simpl.
  destruct (in_expected r) eqn:E; simpl; [now rewrite IH|].
  destruct (String.eqb_spec (ticker r) t) as [Et|Et]; [|exact IH].
  exfalso. unfold in_expected in E. rewrite Et in E.
  assert (H : existsb (String.eqb t) EXPECTED_TICKERS = true)
    by now apply existsb_eqb_In.
  congruence.
Qed.

(** The rows step 4 hands to the writer: those of the expected tickers in
    the monthly frame, annotated. *)
Lemma step4_rows (monthly : list Row) :
  let final := flat_map (fun t => annotated (filter (fun r => String.eqb (ticker r) t) monthly))
                        (filter (has_rows monthly) EXPECTED_TICKERS) in
  Permutation (map base_fields final) (map base_fields (filter in_expected monthly)) /\
  (forall r, In r final ->
     In (ticker r) EXPECTED_TICKERS /\
     SMA_10 r <> None /\ SMA_20 r <> None /\ EMA_10 r <> None /\ EMA_20 r <> None) /\
  filter (has_rows final) EXPECTED_TICKERS = filter (has_rows monthly) EXPECTED_TICKERS.
Proof.
  intros final.
  assert (Hblock : forall t r,
            In r (annotated (filter (fun r => String.eqb (ticker r) t) monthly)) ->
            ticker r = t).
  { intros t r. apply annotated_ticker.
    intros x Hx. apply filter_In in Hx. now apply String.eqb_eq. }
  split; [|split].
  - unfold final. rewrite flat_map_map.
    etransitivity.
    { apply Permutation_flat_map_blocks. intros t _. apply annotated_perm. }
    rewrite <- flat_map_map, flat_map_has_rows. apply Permutation_map.
    etransitivity.
    { erewrite flat_map_ext_in; [reflexivity|].
      intros t Ht. symmetry. apply (filter_in_expected monthly Ht). }
    apply (@partition_perm string ticker String.eqb String.eqb_eq);
      [apply EXPECTED_TICKERS_NoDup|].
    intros r Hr. apply filter_In in Hr. destruct Hr as [_ Hr].
    unfold in_expected in Hr. apply existsb_exists in Hr.
    destruct Hr as (t & Ht & E). apply String.eqb_eq in E. now rewrite E.
  - intros r Hr. unfold final in Hr. apply in_flat_map in Hr.
    destruct Hr as (t & Ht & Hr). split.
    + rewrite (Hblock t r Hr). apply filter_In in Ht. tauto.
    + now apply (proj2 (annotated_spec _)) in Hr.
  - apply filter_ext_in. intros t Ht.
    destruct (has_rows monthly t) eqn:Em.
    + apply has_rows_In.
      assert (Hg : filter (fun r => String.eqb (ticker r) t) monthly <> []).
      { rewrite has_rows_filter in Em. destruct (filter _ monthly); [discriminate|].
        discriminate. }
      apply annotated_nonempty in Hg.
      destruct (annotated (filter (fun r => String.eqb (ticker r) t) monthly))
        as [|r l] eqn:Ea; [congruence|].
      exists r. split.
      * unfold final. apply in_flat_map. exists t. split.
        -- apply filter_In. split; assumption.
        -- rewrite Ea. now left.
      * apply (Hblock t). rewrite Ea. now left.
    + destruct (has_rows final t) eqn:Ef; [|reflexivity].
      apply has_rows_In in Ef. destruct Ef as (r & Hr & Er).
      unfold final in Hr. apply in_flat_map in Hr. destruct Hr as (t' & Ht' & Hr).
      apply Hblock in Hr. apply filter_In in Ht'. destruct Ht' as [_ Ht'].
      congruence.
Qed.

Section MainProperties.

Variable path_exists : string -> bool.
Variable read_csv : string -> result CsvTable.
Variable path_join : string -> string -> string.
Variable read_back : string -> result Table.

(** X19. A run of [main] ends with [sys.exit(1)] and nothing written or
    created when the loader fails, and when an expected ticker has no row
    in the data; and whenever [main] exits, the status is 1. *)
Theorem main_exits_on_bad_input (input_file output_dir : string) (w : list fs_event) :
  (forall e, load_stock_data path_exists read_csv input_file = LoadFailed e ->
     main path_exists read_csv path_join read_back input_file output_dir w
     = (SysExit 1, w)) /\
  (forall df t, load_stock_data path_exists read_csv input_file = Loaded df ->
     In t EXPECTED_TICKERS -> (forall r, In r (rows df) -> ticker r <> t) ->
     main path_exists read_csv path_join read_back input_file output_dir w
     = (SysExit 1, w)) /\
  (forall code w',
     main path_exists read_csv path_join read_back input_file output_dir w
     = (SysExit code, w') -> code = 1%Z).
Proof.
  unfold main. split; [|split].
  - intros e ->. reflexivity.
  - intros df t -> Ht Hnone.
    destruct (validate_tickers (rows df) EXPECTED_TICKERS) as [b|e] eqn:E; [|reflexivity].
    exfalso. unfold validate_tickers in E.
    destruct (filter _ EXPECTED_TICKERS) eqn:Ef; [|discriminate].
    destruct (proj1 (missing_tickers_nil (rows df) EXPECTED_TICKERS) Ef t Ht)
      as (r & Hr & Er).
    now apply Hnone in Hr.
  - intros code w'.
    destruct (load_stock_data path_exists read_csv input_file) as [df|e];
      [|intros [= <- _]; reflexivity].
    destruct (validate_tickers (rows df) EXPECTED_TICKERS);
      [|intros [= <- _]; reflexivity].
    cbv zeta.
    destruct ((_ <~ indicators_loop 0 EXPECTED_TICKERS [] ;; _)%store _) as [[final st]|e];
      [|intros [= <- _]; reflexivity].
    destruct (partition_and_write_results _ _ _ _ _) as [[paths|e] w''];
      [|intros [= <- _]; reflexivity].
    destruct (forallb _ _); [discriminate | intros [= <- _]; reflexivity].
Qed.

(** X20. When the loader returns daily records with all fields,
    holding every expected ticker, and the files written can be read
    back, [main] returns: it writes ten files, [result_<ticker>.csv] for
    the expected tickers in their order, which together hold the monthly
    rows of the expected tickers, each once, with the four indicators
    set in every row. *)
Theorem main_writes_expected_files (input_file output_dir : string) (w : list fs_event)
    (df_daily : Table) (S0 : list DailyRecord) :
  load_stock_data path_exists read_csv input_file = Loaded df_daily ->
  rows df_daily = map to_row S0 ->
  (forall t, In t EXPECTED_TICKERS -> exists d, In d S0 /\ d_ticker d = t) ->
  (forall p, returns (read_back p) = true) ->
  exists w' written,
    main path_exists read_csv path_join read_back input_file output_dir w
    = (Returned, w') /\
    written_paths w'
    = written_paths w ++ map (fun t => path_join output_dir (result_csv t)) EXPECTED_TICKERS /\
    written_rows w' = written_rows w ++ written /\
    Permutation (map base_fields written)
                (map base_fields (filter in_expected (aggregate_monthly_ohlc (rows df_daily)))) /\
    forall r, In r written ->
      SMA_10 r <> None /\ SMA_20 r <> None /\ EMA_10 r <> None /\ EMA_20 r <> None.
Proof.
  intros Hload Hrows Hall Hback. unfold main. rewrite Hload.
  assert (Hval : validate_tickers (rows df_daily) EXPECTED_TICKERS = Ok true).
  { unfold validate_tickers.
    rewrite (proj2 (missing_tickers_nil (rows df_daily) EXPECTED_TICKERS));
      [reflexivity|].
    intros t Ht. destruct (Hall t Ht) as (d & Hd & Ed).
    exists (to_row d). rewrite Hrows. split; [now apply in_map | exact Ed]. }
  rewrite Hval. cbv zeta.
  set (monthly := aggregate_monthly_ohlc (rows df_daily)).
  assert (Hts : filter (has_rows monthly) EXPECTED_TICKERS = EXPECTED_TICKERS).
  { apply forallb_filter_id, forallb_forall. intros t Ht.
    destruct (Hall t Ht) as (d & Hd & Ed).
    destruct (@aggregate_row_of_record S0 d Hd) as (o & Ho & Eo & _).
    apply has_rows_In. exists o. unfold monthly. rewrite Hrows.
    split; [exact Ho | congruence]. }
  destruct (@step4_run monthly) as (st' & Hstep4); [rewrite Hts; discriminate|].
  rewrite Hstep4.
  destruct (step4_rows monthly) as (Hperm & Hind & Hfinal).
  set (final := flat_map _ (filter (has_rows monthly) EXPECTED_TICKERS)) in *.
  unfold partition_and_write_results.
  rewrite (@partition_loop_run path_join
             {| index_name := Some "date"%string;
                columns := monthly_columns ++ indicator_columns;
                rows := final |} output_dir eq_refl eq_refl eq_refl).
  cbn [rows app]. rewrite Hfinal, Hts.
  assert (Hread : forall l, forallb (fun file_path => returns (read_back file_path)) l = true).
  { intros l. apply forallb_forall. intros p _. apply Hback. }
  rewrite Hread.
  eexists _, (flat_map (fun t => filter (fun r => String.eqb (ticker r) t) final)
                       EXPECTED_TICKERS).
  split; [reflexivity|].
  rewrite written_paths_app, written_rows_app.
  split; [f_equal; apply written_paths_files|].
  split.
  { now f_equal. }
  assert (Pfinal : Permutation
                     (flat_map (fun t => filter (fun r => String.eqb (ticker r) t) final)
                               EXPECTED_TICKERS) final).
  { apply (@partition_perm string ticker String.eqb String.eqb_eq);
      [apply EXPECTED_TICKERS_NoDup|].
    intros r Hr. now apply Hind. }
  split.
  - rewrite <- Hperm. now apply Permutation_map.
  - intros r Hr. apply (Permutation_in _ Pfinal) in Hr. now apply Hind.
Qed.

End MainProperties.

Lemma main_writes_expected_files_witness :
  exists w',
    main (fun _ => true)
         (fun _ => Ok {| csv_header := required_columns;
                         csv_rows := map Dated (map to_row ten_tickers_records) |})
         slash_join (fun _ => Ok monthly_table) "data.csv" "output" []
    = (Returned, w') /\
    written_paths w' = map (fun t => slash_join "output" (result_csv t)) EXPECTED_TICKERS.
Proof.
  destruct (@main_writes_expected_files (fun _ => true)
              (fun _ => Ok {| csv_header := required_columns;
                              csv_rows := map Dated (map to_row ten_tickers_records) |})
              slash_join (fun _ => Ok monthly_table) "data.csv" "output" []
              {| index_name := Some "date"%string;
                 columns := filter (fun col => negb (String.eqb col "date")) required_columns;
                 rows := map to_row ten_tickers_records |}
              ten_tickers_records)
    as (w' & written & Hrun & Hpaths & _).
  - vm_compute. reflexivity.
  - reflexivity.
  - intros t Ht. exists (daily t 2022 1 3 100 105 95 102 1000). split; [|reflexivity].
    unfold ten_tickers_records. apply in_flat_map. exists t. split; [exact Ht | now left].
  - reflexivity.
  - exists w'. split; [exact Hrun | exact Hpaths].
Defined.
